(** * todo-app: the task model and the list engine

    A shallow embedding of the class [Todo] ([src/js/models/Todo.js]), of
    the class [TodoList] that [app.js] imports from [models/TodoList.js], of
    the class [StorageService] ([src/js/services/StorageService.js]), of
    [parseTags] ([src/js/utils/helpers.js]) and of [sortTodos] of the
    application ([app.js]), followed by the properties the specification
    states about them and by further properties of the code.

    Typing discipline.  JavaScript is untyped; the embedding gives every
    field of a task the type the data model of the specification gives it
    (a title is a string, [completed] a boolean, [dueDate] and
    [completedAt] a string or [null], [categories] and [tags] arrays of
    strings).  A field record handed to the constructor or to [update] may
    omit any field.  Strings are sequences of code units; the model keeps
    the code units below 256, so one [ascii] stands for one code unit.

    Objects.  The tasks of a collection are distinct objects, so the array
    of the collection is a list of records, and a method that changes a
    task in place writes the changed record back at its index.  A listener
    is a number; what a call to it does is outside the model. *)

From Stdlib Require Import ZArith Ascii String List Lia Bool Permutation Sorted.
From stdpp Require Import base option list gmap strings pretty.

Local Open Scope Z_scope.
Local Set Warnings "-register-all".

(** ** The parts of the JavaScript platform the sources call *)

Module JS.

(** *** Strings *)

(** [s.length] *)
Definition length (s : string) : Z := Z.of_nat (String.length s).

(** Truthiness of a string: only the empty string is falsy. *)
Definition truthy (s : string) : bool :=
  match s with EmptyString => false | String _ _ => true end.

(** The code units that [String.prototype.trim] strips and that the
    regular expression class [\s] matches, among the code units below
    256: TAB, LF, VT, FF, CR, SPACE and NBSP. *)
Definition is_space (c : ascii) : bool :=
  let n := N_of_ascii c in
  ((9 <=? n) && (n <=? 13) || (n =? 32) || (n =? 160))%N.

Fixpoint trimStart (s : string) : string :=
  match s with
  | EmptyString => EmptyString
  | String c r => if is_space c then trimStart r else s
  end.

Fixpoint trimEnd (s : string) : string :=
  match s with
  | EmptyString => EmptyString
  | String c r =>
      match trimEnd r with
      | EmptyString => if is_space c then EmptyString else String c EmptyString
      | r' => String c r'
      end
  end.

(** [s.trim()] *)
Definition trim (s : string) : string := trimEnd (trimStart s).

(** Lower-casing of one code unit below 256: A-Z and the Latin-1 capitals
    (0xC0-0xDE without the multiplication sign 0xD7) move up by 32. *)
Definition lower_unit (c : ascii) : ascii :=
  let n := N_of_ascii c in
  if ((65 <=? n) && (n <=? 90)
      || (192 <=? n) && (n <=? 222) && negb (n =? 215))%N
  then ascii_of_N (n + 32) else c.

(** [s.toLowerCase()] *)
Fixpoint toLowerCase (s : string) : string :=
  match s with
  | EmptyString => EmptyString
  | String c r => String (lower_unit c) (toLowerCase r)
  end.

(** [s.startsWith(p)] *)
Definition startsWith (s p : string) : bool := String.prefix p s.

(** [s.includes(sub)] for strings: [sub] occurs somewhere in [s]. *)
Fixpoint includes (s sub : string) : bool :=
  String.prefix sub s ||
  match s with
  | EmptyString => false
  | String _ r => includes r sub
  end.

(** [arr.includes(x)] for arrays of strings (strict equality on strings). *)
Definition arr_includes (arr : list string) (x : string) : bool :=
  existsb (String.eqb x) arr.

(** [arr.join(sep)] *)
Definition join (sep : string) (arr : list string) : string :=
  String.concat sep arr.

(** [s < t] on two strings: lexicographic on code units. *)
Definition str_lt (s t : string) : bool := String.ltb s t.

(** *** Numbers

    The numbers the modelled code computes with are time values and
    priority ranks: integers, or [NaN] for an invalid date. *)
Inductive number := Num (z : Z) | NaN.

Definition num_lt (a b : number) : bool :=
  match a, b with
  | Num x, Num y => x <? y
  | _, _ => false
  end.

Definition isNaN (a : number) : bool :=
  match a with NaN => true | Num _ => false end.

(** *** Dates

    [new Date(s).getTime()] for a string [s].  ECMAScript fixes the
    result for its date-time string format; the embedding recognises two
    shapes of it, the date-only form [YYYY-MM-DD] (what a date input
    yields, read as UTC midnight) and the form [YYYY-MM-DDTHH:mm:ss.sssZ]
    (what [toISOString] yields), with every element in range.  What a
    platform answers for any other string is its own business: see
    [date_fallback] in [Platform] below. *)

Definition digit (c : ascii) : option Z :=
  let n := N_of_ascii c in
  if ((48 <=? n) && (n <=? 57))%N then Some (Z.of_N n - 48) else None.

Fixpoint digits_from (acc : Z) (s : string) : option Z :=
  match s with
  | EmptyString => Some acc
  | String c r => d ← digit c; digits_from (10 * acc + d) r
  end.

(** The [len] decimal digits of [s] that start at [pos]. *)
Definition digits_at (s : string) (pos len : nat) : option Z :=
  let sub := String.substring pos len s in
  if (String.length sub =? len)%nat then digits_from 0 sub else None.

Definition unit_at (s : string) (pos : nat) (c : ascii) : bool :=
  match String.get pos s with
  | Some c' => Ascii.eqb c c'
  | None => false
  end.

Definition is_leap (y : Z) : bool :=
  (y mod 4 =? 0) && (negb (y mod 100 =? 0) || (y mod 400 =? 0)).

Definition days_in_month (y m : Z) : Z :=
  if m =? 2 then (if is_leap y then 29 else 28)
  else if (m =? 4) || (m =? 6) || (m =? 9) || (m =? 11) then 30
  else 31.

(** Days between 1970-01-01 and the given civil date (proleptic
    Gregorian calendar). *)
Definition days_from_civil (y m d : Z) : Z :=
  let y' := if m <=? 2 then y - 1 else y in
  let era := y' / 400 in
  let yoe := y' - era * 400 in
  let mp := if 2 <? m then m - 3 else m + 9 in
  let doy := (153 * mp + 2) / 5 + d - 1 in
  let doe := yoe * 365 + yoe / 4 - yoe / 100 + doy in
  era * 146097 + doe - 719468.

Definition iso_date (s : string) : option Z :=
  y ← digits_at s 0 4;
  m ← digits_at s 5 2;
  d ← digits_at s 8 2;
  if unit_at s 4 "-" && unit_at s 7 "-"
     && (1 <=? m) && (m <=? 12) && (1 <=? d) && (d <=? days_in_month y m)
  then Some (days_from_civil y m d * 86400000)
  else None.

Definition iso_time (s : string) : option Z :=
  h ← digits_at s 11 2;
  mi ← digits_at s 14 2;
  sec ← digits_at s 17 2;
  ms ← digits_at s 20 3;
  if unit_at s 10 "T" && unit_at s 13 ":" && unit_at s 16 ":"
     && unit_at s 19 "." && unit_at s 23 "Z"
     && (h <=? 23) && (mi <=? 59) && (sec <=? 59)
  then Some (((h * 60 + mi) * 60 + sec) * 1000 + ms)
  else None.

(** The time value of a string in one of the two recognised shapes. *)
Definition iso_parse (s : string) : option Z :=
  match String.length s with
  | 10%nat => iso_date s
  | 24%nat => day ← iso_date (String.substring 0 10 s);
              t ← iso_time s;
              Some (day + t)
  | _ => None
  end.

(** *** JSON values, as [JSON.parse] returns them *)
Inductive json :=
| JNull
| JBool (b : bool)
| JNum (z : Z)
| JStr (s : string)
| JArr (items : list json)
| JObj (props : list (string * json)).

(** Truthiness of a parsed value ([!parsed] is its negation). *)
Definition json_truthy (j : json) : bool :=
  match j with
  | JNull => false
  | JBool b => b
  | JNum z => negb (z =? 0)
  | JStr s => truthy s
  | JArr _ | JObj _ => true
  end.

(** [typeof j === 'object'] *)
Definition typeof_object (j : json) : bool :=
  match j with
  | JNull | JArr _ | JObj _ => true
  | _ => false
  end.

(** [j[name]] for a parsed value: [None] is [undefined].  Arrays and
    primitives have no property of the names the code reads. *)
Fixpoint assoc (name : string) (props : list (string * json)) : option json :=
  match props with
  | [] => None
  | (k, v) :: rest => if String.eqb k name then Some v else assoc name rest
  end.

Definition prop (j : json) (name : string) : option json :=
  match j with
  | JObj props => assoc name props
  | _ => None
  end.

(** *** Arrays *)

(** [Array.prototype.sort(cmp)]: ECMAScript requires the sort to be
    stable, and leaves the order open when [cmp] is not a consistent
    comparator.  The model is the stable insertion sort; where [cmp]
    orders by a key, every conforming sort returns the same array
    (see [Array_sort_unique] below). *)
Section Sort.
Context {A : Type} (cmp : A → A → Z).

Fixpoint sort_insert (x : A) (l : list A) : list A :=
  match l with
  | [] => [x]
  | y :: l' => if cmp x y <=? 0 then x :: y :: l' else y :: sort_insert x l'
  end.

Fixpoint Array_sort (l : list A) : list A :=
  match l with
  | [] => []
  | x :: l' => sort_insert x (Array_sort l')
  end.
End Sort.

(** [s.split(re)] for a regular expression [re] that matches the
    non-empty runs of the code units in [is_sep]: the pieces between the
    runs, with an empty piece in front of a leading run and behind a
    trailing one.  [cur] is the piece being read, [in_run] tells whether
    the previous code unit was a separator. *)
Fixpoint split_runs (is_sep : ascii → bool) (s cur : string) (in_run : bool)
  : list string :=
  match s with
  | EmptyString => [cur]
  | String c r =>
      if is_sep c then
        if in_run then split_runs is_sep r cur true
        else cur :: split_runs is_sep r EmptyString true
      else split_runs is_sep r (cur +:+ String c EmptyString) false
  end.

(** [Object.prototype[key]]: the properties that every object literal
    inherits, each given by the string its value turns into when it is
    compared.  The value is a built-in function, whose text is
    [function name() { [native code] }], but under [__proto__], where it
    is [Object.prototype] itself.  [None]: there is no such property. *)
Definition Object_prototype (key : string) : option string :=
  if String.eqb key "__proto__" then Some "[object Object]"
  else if String.eqb key "constructor"
  then Some "function Object() { [native code] }"
  else if existsb (String.eqb key)
            ["hasOwnProperty"; "isPrototypeOf"; "propertyIsEnumerable";
             "toLocaleString"; "toString"; "valueOf";
             "__defineGetter__"; "__defineSetter__";
             "__lookupGetter__"; "__lookupSetter__"]
  then Some ("function " +:+ key +:+ "() { [native code] }")
  else None.

End JS.

(** ** Exceptions, and computations that read and change a state

    A method either returns or throws; the state it has reached by then
    stays as it is in both cases, which is what makes a mutation followed by
    a [throw] visible to the caller. *)

Inductive exn :=
| Error (message : string)
| SyntaxError
| QuotaExceededError.

Inductive completion (A : Type) :=
| Return (a : A)
| Throw (e : exn).
Arguments Return {A} a.
Arguments Throw {A} e.

Definition M (S A : Type) : Type := S → completion A * S.

#[global] Instance M_ret {S} : MRet (M S) := λ A a s, (Return a, s).

#[global] Instance M_bind {S} : MBind (M S) := λ A B f c s,
  match c s with
  | (Return a, s') => f a s'
  | (Throw e, s') => (Throw e, s')
  end.

Definition throw {S A} (e : exn) : M S A := λ s, (Throw e, s).

(** [try { body } catch (error) { handler(error) }] *)
Definition try_catch {S A} (body : M S A) (handler : exn → M S A) : M S A :=
  λ s, match body s with
       | (Return a, s') => (Return a, s')
       | (Throw e, s') => handler e s'
       end.

Definition get {S} : M S S := λ s, (Return s, s).
Definition modify {S} (f : S → S) : M S unit := λ s, (Return tt, f s).

(** ** The world outside the collection *)

(** What the program writes to the console or shows in an alert box. *)
Inductive output :=
| console_warn (message : string)
| console_log (message : string)
| console_error (message : string) (error : exn)
| alert (message : string).

Record World := mk_World {
  localStorage : gmap string string;
  reads : nat;
  outputs : list output
}.

(** What the platform answers and the program cannot compute: the clock,
    the random part of a fresh id, date strings outside the standard
    format, the JSON codec and the quota of the store. *)
Class Platform := {
  (** [new Date().toISOString()] at the n-th read of the platform *)
  clock_iso : nat → string;
  (** the template of [Date.now()] and [Math.random()] in [generateId] *)
  id_token : nat → string;
  (** [new Date(s).getTime()] for a string outside the standard format *)
  date_fallback : string → JS.number;
  (** [JSON.parse]; [None] is a thrown [SyntaxError], as for the empty
      text *)
  JSON_parse : string → option JS.json;
  JSON_parse_empty : JSON_parse "" = None;
  JSON_stringify : JS.json → string;
  (** whether the store takes the contents a [setItem] would leave *)
  storage_accepts : gmap string string → bool;
  (** the conversion of a string to a number, for [<] between a string
      and a value that is not one *)
  StringToNumber : string → JS.number
}.

(** The local calendar, which depends on the time zone of the platform:
    the number of the local day a time value falls on.  Two dates have the
    same [getFullYear()], [getMonth()] and [getDate()] exactly when they
    fall on the same local day. *)
Class Calendar := {
  local_day : Z → Z
}.

Section World.
Context `{Platform}.

Definition read_platform : M World nat := λ w,
  (Return (reads w),
   mk_World (localStorage w) (S (reads w)) (outputs w)).

Definition Date_toISOString_now : M World string :=
  n ← read_platform; mret (clock_iso n).

Definition emit (o : output) : M World unit :=
  modify (λ w, mk_World (localStorage w) (reads w) (outputs w ++ [o])).

(** [localStorage.getItem(key)]: [None] is [null]. *)
Definition getItem (key : string) : M World (option string) :=
  w ← get; mret (localStorage w !! key).

(** [localStorage.setItem(key, value)] *)
Definition setItem (key value : string) : M World unit := λ w,
  let contents := <[key := value]> (localStorage w) in
  if storage_accepts contents
  then (Return tt, mk_World contents (reads w) (outputs w))
  else (Throw QuotaExceededError, w).

(** [new Date(s).getTime()] *)
Definition Date_getTime (s : string) : JS.number :=
  match JS.iso_parse s with
  | Some ms => JS.Num ms
  | None => date_fallback s
  end.

(** [localStorage.removeItem(key)] *)
Definition removeItem (key : string) : M World unit :=
  modify (λ w, mk_World (delete key (localStorage w)) (reads w) (outputs w)).

(** The time value of [new Date()]: the instant whose rendering by
    [toISOString] the clock gives at this read. *)
Definition Date_now : M World JS.number :=
  n ← read_platform; mret (Date_getTime (clock_iso n)).

End World.

(** ** The task entity: [src/js/models/Todo.js] *)

Module Todo.

(** An instance of the class. *)
Record t := mk {
  id : string;
  title : string;
  description : string;
  completed : bool;
  priority : string;
  dueDate : option string;
  categories : list string;
  tags : list string;
  createdAt : string;
  updatedAt : string;
  completedAt : option string
}.

(** A field record, the argument of the constructor and of [update]:
    [None] is a field that is missing; a nullable field that is present
    holds [None] for [null]. *)
Record fields := mk_fields {
  d_id : option string;
  d_title : option string;
  d_description : option string;
  d_completed : option bool;
  d_priority : option string;
  d_dueDate : option (option string);
  d_categories : option (list string);
  d_tags : option (list string);
  d_createdAt : option string;
  d_updatedAt : option string;
  d_completedAt : option (option string)
}.

(** The empty record [{}]. *)
Definition no_fields : fields :=
  mk_fields None None None None None None None None None None None.

(** The result of [validate]. *)
Record validation := mk_validation {
  isValid : bool;
  errors : list string
}.


Section Methods.
Context `{Platform}.

(** [value || fallback] for a string field: a missing and an empty
    string both give the fallback, which is evaluated only then. *)
Definition str_or (value : option string) (fallback : M World string)
  : M World string :=
  match value with
  | Some s => if JS.truthy s then mret s else fallback
  | None => fallback
  end.

(** [value || null] for a nullable string field. *)
Definition str_or_null (value : option (option string)) : option string :=
  match value with
  | Some (Some s) => if JS.truthy s then Some s else None
  | _ => None
  end.

Definition generateId : M World string :=
  n ← read_platform; mret (id_token n).

(** [new Todo(data)] *)
Definition constructor (data : fields) : M World t :=
  id ← str_or (d_id data) generateId;
  title ← str_or (d_title data) (mret "");
  description ← str_or (d_description data) (mret "");
  let completed := default false (d_completed data) in
  priority ← str_or (d_priority data) (mret "medium");
  let dueDate := str_or_null (d_dueDate data) in
  let categories := default [] (d_categories data) in
  let tags := default [] (d_tags data) in
  createdAt ← str_or (d_createdAt data) Date_toISOString_now;
  updatedAt ← str_or (d_updatedAt data) Date_toISOString_now;
  let completedAt := str_or_null (d_completedAt data) in
  mret (mk id title description completed priority dueDate categories
          tags createdAt updatedAt completedAt).

(** [toggleComplete()]; the changed instance is the result. *)
Definition toggleComplete (this : t) : M World t :=
  let completed := negb (completed this) in
  completedAt ← (if completed
                 then now ← Date_toISOString_now; mret (Some now)
                 else mret None);
  updatedAt ← Date_toISOString_now;
  mret (mk (id this) (title this) (description this) completed
          (priority this) (dueDate this) (categories this) (tags this)
          (createdAt this) updatedAt completedAt).

(** [Object.assign(this, updateData)], where [updateData] is [data]
    without [id] and [createdAt]: every field that is present
    overwrites. *)
Definition assign (this : t) (data : fields) : t :=
  mk (id this)
     (default (title this) (d_title data))
     (default (description this) (d_description data))
     (default (completed this) (d_completed data))
     (default (priority this) (d_priority data))
     (default (dueDate this) (d_dueDate data))
     (default (categories this) (d_categories data))
     (default (tags this) (d_tags data))
     (createdAt this)
     (default (updatedAt this) (d_updatedAt data))
     (default (completedAt this) (d_completedAt data)).

Definition set_updatedAt (this : t) (now : string) : t :=
  mk (id this) (title this) (description this) (completed this)
     (priority this) (dueDate this) (categories this) (tags this)
     (createdAt this) now (completedAt this).

(** [update(data)] *)
Definition update (this : t) (data : fields) : M World t :=
  let this := assign this data in
  now ← Date_toISOString_now;
  mret (set_updatedAt this now).

(** The messages of [validate()], as the bytes of the source text; the
    code joins them and never measures them. *)
Definition title_required : string := "タイトルは必須です".
Definition title_too_long : string := "タイトルは200文字以内にしてください".
Definition priority_invalid : string := "優先度が無効です".
Definition dueDate_invalid : string := "期限の日付が無効です".

(** [this.dueDate && isNaN(new Date(this.dueDate).getTime())] *)
Definition dueDate_is_invalid (dueDate : option string) : bool :=
  match dueDate with
  | Some s => JS.truthy s && JS.isNaN (Date_getTime s)
  | None => false
  end.

(** [validate()]: each [if] pushes its message when it fires. *)
Definition validate (this : t) : validation :=
  let errors := [] in
  let errors :=
    if negb (JS.truthy (title this)) || String.eqb (JS.trim (title this)) ""
    then errors ++ [title_required] else errors in
  let errors :=
    if 200 <? JS.length (title this)
    then errors ++ [title_too_long] else errors in
  let errors :=
    if negb (JS.arr_includes ["high"; "medium"; "low"] (priority this))
    then errors ++ [priority_invalid] else errors in
  let errors :=
    if dueDate_is_invalid (dueDate this)
    then errors ++ [dueDate_invalid] else errors in
  mk_validation (Nat.eqb (List.length errors) 0) errors.

Definition json_of_nullable (v : option string) : JS.json :=
  match v with
  | Some s => JS.JStr s
  | None => JS.JNull
  end.

(** [toJSON()] *)
Definition toJSON (this : t) : JS.json :=
  JS.JObj [
    ("id", JS.JStr (id this));
    ("title", JS.JStr (title this));
    ("description", JS.JStr (description this));
    ("completed", JS.JBool (completed this));
    ("priority", JS.JStr (priority this));
    ("dueDate", json_of_nullable (dueDate this));
    ("categories", JS.JArr (JS.JStr <$> categories this));
    ("tags", JS.JArr (JS.JStr <$> tags this));
    ("createdAt", JS.JStr (createdAt this));
    ("updatedAt", JS.JStr (updatedAt this));
    ("completedAt", json_of_nullable (completedAt this))
  ].

(** [!this.dueDate] is the negation of this. *)
Definition has_dueDate (this : t) : option string :=
  match dueDate this with
  | Some s => if JS.truthy s then Some s else None
  | None => None
  end.

(** [isOverdue()] *)
Definition isOverdue (this : t) : M World bool :=
  match has_dueDate this with
  | Some due =>
      if completed this then mret false
      else
        now ← Date_now;
        mret (JS.num_lt (Date_getTime due) now)
  | None => mret false
  end.

(** The three comparisons of [isDueToday()] and [isToday()]: an invalid
    date has [NaN] for its year, which equals nothing. *)
Definition same_local_day `{Calendar} (a b : JS.number) : bool :=
  match a, b with
  | JS.Num x, JS.Num y => local_day x =? local_day y
  | _, _ => false
  end.

(** [isDueToday()] *)
Definition isDueToday `{Calendar} (this : t) : M World bool :=
  match has_dueDate this with
  | Some due =>
      today ← Date_now;
      let dueDate := Date_getTime due in
      mret (same_local_day today dueDate)
  | None => mret false
  end.

(** What the constructor reads in a record that [JSON.parse] returned.
    The outer [None] says that the record is outside the typing of the
    embedding: it is [null], on which the first read throws, or it holds a
    value of another type than the field has.  [null] in a field that is
    defaulted with [||] reads as a missing field, which the constructor
    treats alike. *)
Definition read_string (item : JS.json) (name : string) : option (option string) :=
  match JS.prop item name with
  | None | Some JS.JNull => Some None
  | Some (JS.JStr s) => Some (Some s)
  | Some _ => None
  end.

Definition read_bool (item : JS.json) (name : string) : option (option bool) :=
  match JS.prop item name with
  | None | Some JS.JNull => Some None
  | Some (JS.JBool b) => Some (Some b)
  | Some _ => None
  end.

Definition read_nullable (item : JS.json) (name : string)
  : option (option (option string)) :=
  match JS.prop item name with
  | None => Some None
  | Some JS.JNull => Some (Some None)
  | Some (JS.JStr s) => Some (Some (Some s))
  | Some _ => None
  end.

Definition string_of_json (j : JS.json) : option string :=
  match j with
  | JS.JStr s => Some s
  | _ => None
  end.

Definition read_strings (item : JS.json) (name : string)
  : option (option (list string)) :=
  match JS.prop item name with
  | None | Some JS.JNull => Some None
  | Some (JS.JArr items) => strings ← mapM string_of_json items; Some (Some strings)
  | Some _ => None
  end.

Definition revive (item : JS.json) : option fields :=
  match item with
  | JS.JNull => None
  | _ =>
      id ← read_string item "id";
      title ← read_string item "title";
      description ← read_string item "description";
      completed ← read_bool item "completed";
      priority ← read_string item "priority";
      dueDate ← read_nullable item "dueDate";
      categories ← read_strings item "categories";
      tags ← read_strings item "tags";
      createdAt ← read_string item "createdAt";
      updatedAt ← read_string item "updatedAt";
      completedAt ← read_nullable item "completedAt";
      Some (mk_fields id title description completed priority dueDate
              categories tags createdAt updatedAt completedAt)
  end.

(** [data.map(item => new Todo(item))] *)
Fixpoint construct_all (data : list fields) : M World (list t) :=
  match data with
  | [] => mret []
  | item :: data =>
      todo ← constructor item;
      todos ← construct_all data;
      mret (todo :: todos)
  end.

End Methods.

End Todo.

(** ** [parseTags] of [src/js/utils/helpers.js] *)

(** The separator class [[,\s]] of the regular expression. *)
Definition tag_separator (c : ascii) : bool :=
  Ascii.eqb c "," || JS.is_space c.

Definition parseTags (tagString : string) : list string :=
  if negb (JS.truthy tagString) then []
  else
    let pieces := JS.split_runs tag_separator tagString "" false in
    let pieces := JS.trim <$> pieces in
    let pieces := List.filter (λ tag, 0 <? JS.length tag) pieces in
    (λ tag, if JS.startsWith tag "#" then tag else "#" +:+ tag) <$> pieces.

(** ** The persistence adapter: [src/js/services/StorageService.js] *)

Module StorageService.

Record t := mk {
  key : string;
  version : string
}.

(** [new StorageService(key = 'todoApp')] *)
Definition constructor (key : option string) : t :=
  mk (default "todoApp" key) "1.0.0".

Section Methods.
Context `{Platform}.

Definition parse (text : string) : M World JS.json :=
  match JSON_parse text with
  | Some parsed => mret parsed
  | None => throw SyntaxError
  end.

(** [parsed.version !== this.version] *)
Definition version_differs (this : t) (parsed : JS.json) : bool :=
  match JS.prop parsed "version" with
  | Some (JS.JStr v) => negb (String.eqb v (version this))
  | _ => true
  end.

(** [Array.isArray(parsed.todos) ? parsed.todos : []] *)
Definition todos_of (parsed : JS.json) : list JS.json :=
  match JS.prop parsed "todos" with
  | Some (JS.JArr items) => items
  | _ => []
  end.

(** [load()] *)
Definition load (this : t) : M World (list JS.json) :=
  try_catch
    (data ← getItem (key this);
     match data with
     | None => mret []
     | Some data =>
         if negb (JS.truthy data) then mret []
         else
           parsed ← parse data;
           if negb (JS.json_truthy parsed) || negb (JS.typeof_object parsed)
           then
             emit (console_warn "Invalid data structure in storage");;
             mret []
           else
             (if version_differs this parsed
              then emit (console_log "Data version mismatch, may need migration")
              else mret tt);;
             mret (todos_of parsed)
     end)
    (λ error,
       emit (console_error "Failed to load from storage:" error);;
       mret []).

(** The envelope [{version, todos, lastUpdated}]. *)
Definition envelope (this : t) (todos : list JS.json) (now : string) : JS.json :=
  JS.JObj [
    ("version", JS.JStr (version this));
    ("todos", JS.JArr todos);
    ("lastUpdated", JS.JStr now)
  ].

Definition quota_notice : string :=
  "ストレージ容量が不足しています。古いデータを削除してください。".

(** [save(todos)] *)
Definition save (this : t) (todos : list JS.json) : M World bool :=
  try_catch
    (now ← Date_toISOString_now;
     let data := envelope this todos now in
     setItem (key this) (JSON_stringify data);;
     mret true)
    (λ error,
       emit (console_error "Failed to save to storage:" error);;
       match error with
       | QuotaExceededError => emit (alert quota_notice)
       | _ => mret tt
       end;;
       mret false).

(** [clear()] *)
Definition clear (this : t) : M World bool :=
  try_catch
    (removeItem (key this);;
     mret true)
    (λ error,
       emit (console_error "Failed to clear storage:" error);;
       mret false).

(** [data || null] *)
Definition or_null (data : option string) : option string :=
  match data with
  | Some text => if JS.truthy text then Some text else None
  | None => None
  end.

(** [export()] *)
Definition export (this : t) : M World (option string) :=
  try_catch
    (data ← getItem (key this);
     mret (or_null data))
    (λ error,
       emit (console_error "Failed to export data:" error);;
       mret None).

(** [Array.isArray(parsed.todos)] *)
Definition has_todos_array (parsed : JS.json) : bool :=
  match JS.prop parsed "todos" with
  | Some (JS.JArr _) => true
  | _ => false
  end.

Definition import_notice : string :=
  "インポートに失敗しました。JSONファイルの形式を確認してください。".

(** [import(jsonData)] *)
Definition import (this : t) (jsonData : string) : M World bool :=
  try_catch
    (parsed ← parse jsonData;
     (if negb (JS.json_truthy parsed) || negb (has_todos_array parsed)
      then throw (Error "Invalid data format")
      else mret tt);;
     setItem (key this) jsonData;;
     mret true)
    (λ error,
       emit (console_error "Failed to import data:" error);;
       emit (alert import_notice);;
       mret false).

(** [isAvailable()] *)
Definition isAvailable (this : t) : M World bool :=
  try_catch
    (let test := "__storage_test__" in
     setItem test test;;
     removeItem test;;
     mret true)
    (λ error,
       emit (console_error "LocalStorage is not available:" error);;
       mret false).

End Methods.

End StorageService.

(** ** The task collection: class [TodoList] *)

Module TodoList.

Record t := mk {
  storageService : StorageService.t;
  todos : list Todo.t;
  listeners : list nat
}.

(** [new TodoList(storageService)] *)
Definition constructor (storageService : StorageService.t) : t :=
  mk storageService [] [].

(** The state a method runs in: the collection, the world, and the
    calls the listeners have received so far (each with the array it
    was handed).  A listener is taken to return normally and to leave
    the collection alone. *)
Record state := mk_state {
  self : t;
  world : World;
  delivered : list (nat * list Todo.t)
}.

(** The criteria of [filter]; [None] is a field that is missing or
    [null]. *)
Record criteria := mk_criteria {
  status : option string;
  priority : option string;
  category : option string;
  tag : option string;
  search : option string
}.

(** The result of [getStats()]. *)
Record stats := mk_stats {
  total : Z;
  completed : Z;
  active : Z;
  overdue : Z;
  dueToday : Z
}.

(** The values a field read [a[field]] can give, and those a read of
    the table of priorities can: an object that is no array is given by
    the string it turns into. *)
Inductive value :=
| VUndefined
| VNull
| VBool (b : bool)
| VNum (n : JS.number)
| VStr (s : string)
| VArr (items : list string)
| VObj (text : string).

Section Methods.
Context `{Platform}.

(** A computation on the world, run from a method of the collection. *)
Definition in_world {A} (c : M World A) : M state A := λ st,
  let (r, w) := c (world st) in
  (r, mk_state (self st) w (delivered st)).

Definition set_todos (l : list Todo.t) : M state unit :=
  modify (λ st,
    mk_state (mk (storageService (self st)) l (listeners (self st)))
             (world st) (delivered st)).

(** [notify()] *)
Definition notify : M state unit :=
  modify (λ st,
    mk_state (self st) (world st)
      (delivered st
       ++ ((λ listener, (listener, todos (self st))) <$> listeners (self st)))).

(** [save()] *)
Definition save : M state unit :=
  st ← get;
  in_world (StorageService.save (storageService (self st))
              (Todo.toJSON <$> todos (self st)));;
  notify.

(** [add(todoData)] *)
Definition add (todoData : Todo.fields) : M state Todo.t :=
  todo ← in_world (Todo.constructor todoData);
  let validation := Todo.validate todo in
  if negb (Todo.isValid validation)
  then throw (Error (JS.join ", " (Todo.errors validation)))
  else
    st ← get;
    set_todos (todos (self st) ++ [todo]);;
    save;;
    mret todo.

(** [findById(id)]: the first instance with the id, together with its
    place in the array, which stands for the reference to it; [None]
    is [null]. *)
Definition findById (this : t) (id : string) : option (nat * Todo.t) :=
  list_find (λ todo, Todo.id todo = id) (todos this).

(** [update(id, data)].  [todo.update(data)] changes the instance the
    array holds, so the change is in the array from then on. *)
Definition update (id : string) (data : Todo.fields) : M state (option Todo.t) :=
  st ← get;
  match findById (self st) id with
  | Some (i, todo) =>
      todo ← in_world (Todo.update todo data);
      set_todos (<[i := todo]> (todos (self st)));;
      let validation := Todo.validate todo in
      if negb (Todo.isValid validation)
      then throw (Error (JS.join ", " (Todo.errors validation)))
      else save;; mret (Some todo)
  | None => mret None
  end.

(** [delete(id)] *)
Definition delete (id : string) : M state bool :=
  st ← get;
  let initialLength := List.length (todos (self st)) in
  let kept := List.filter (λ todo, negb (String.eqb (Todo.id todo) id))
                (todos (self st)) in
  set_todos kept;;
  if negb (Nat.eqb (List.length kept) initialLength)
  then save;; mret true
  else mret false.

(** [toggle(id)] *)
Definition toggle (id : string) : M state (option Todo.t) :=
  st ← get;
  match findById (self st) id with
  | Some (i, todo) =>
      todo ← in_world (Todo.toggleComplete todo);
      set_todos (<[i := todo]> (todos (self st)));;
      save;;
      mret (Some todo)
  | None => mret None
  end.

(** [criteria.f && ...]: the field is present and not the empty string. *)
Definition given (f : option string) : option string :=
  match f with
  | Some s => if JS.truthy s then Some s else None
  | None => None
  end.

Definition is_string (f : option string) (s : string) : bool :=
  match f with
  | Some s' => String.eqb s' s
  | None => false
  end.

(** The callback of [filter]: one [return false] per criterion. *)
Definition keeps (c : criteria) (todo : Todo.t) : bool :=
  if is_string (status c) "active" && Todo.completed todo then false
  else if is_string (status c) "completed" && negb (Todo.completed todo) then false
  else if match given (priority c) with
          | Some p => negb (String.eqb (Todo.priority todo) p)
          | None => false
          end then false
  else if match given (category c) with
          | Some cat => negb (JS.arr_includes (Todo.categories todo) cat)
          | None => false
          end then false
  else if match given (tag c) with
          | Some tg => negb (JS.arr_includes (Todo.tags todo) tg)
          | None => false
          end then false
  else match given (search c) with
       | Some s =>
           let searchLower := JS.toLowerCase s in
           let titleMatch :=
             JS.includes (JS.toLowerCase (Todo.title todo)) searchLower in
           let descMatch :=
             JS.includes (JS.toLowerCase (Todo.description todo)) searchLower in
           if negb titleMatch && negb descMatch then false else true
       | None => true
       end.

(** [filter(criteria)] *)
Definition filter (this : t) (c : criteria) : list Todo.t :=
  List.filter (keeps c) (todos this).

(** [todo[field]]: the eleven data fields; any other name reads
    [undefined] (the names of the methods of the class are left
    out). *)
Definition get_field (todo : Todo.t) (field : string) : value :=
  if String.eqb field "id" then VStr (Todo.id todo)
  else if String.eqb field "title" then VStr (Todo.title todo)
  else if String.eqb field "description" then VStr (Todo.description todo)
  else if String.eqb field "completed" then VBool (Todo.completed todo)
  else if String.eqb field "priority" then VStr (Todo.priority todo)
  else if String.eqb field "dueDate" then
    match Todo.dueDate todo with Some s => VStr s | None => VNull end
  else if String.eqb field "categories" then VArr (Todo.categories todo)
  else if String.eqb field "tags" then VArr (Todo.tags todo)
  else if String.eqb field "createdAt" then VStr (Todo.createdAt todo)
  else if String.eqb field "updatedAt" then VStr (Todo.updatedAt todo)
  else if String.eqb field "completedAt" then
    match Todo.completedAt todo with Some s => VStr s | None => VNull end
  else VUndefined.

Definition value_truthy (v : value) : bool :=
  match v with
  | VUndefined | VNull => false
  | VBool b => b
  | VNum (JS.Num z) => negb (z =? 0)
  | VNum JS.NaN => false
  | VStr s => JS.truthy s
  | VArr _ => true
  | VObj _ => true
  end.

(** [new Date(v).getTime()] *)
Definition time_value (v : value) : JS.number :=
  match v with
  | VStr s => Date_getTime s
  | VArr items => Date_getTime (JS.join "," items)
  | VObj text => Date_getTime text
  | VNum n => n
  | VBool b => JS.Num (if b then 1 else 0)
  | VNull => JS.Num 0
  | VUndefined => JS.NaN
  end.

(** [v ? new Date(v).getTime() : 0] *)
Definition as_time (v : value) : value :=
  if value_truthy v then VNum (time_value v) else VNum (JS.Num 0).

Definition ToNumber (v : value) : JS.number :=
  match v with
  | VUndefined => JS.NaN
  | VNull => JS.Num 0
  | VBool b => JS.Num (if b then 1 else 0)
  | VNum n => n
  | VStr s => StringToNumber s
  | VArr items => StringToNumber (JS.join "," items)
  | VObj text => StringToNumber text
  end.

(** The string a value is, once an array or another object has been
    turned into one. *)
Definition as_string (v : value) : option string :=
  match v with
  | VStr s => Some s
  | VArr items => Some (JS.join "," items)
  | VObj text => Some text
  | _ => None
  end.

(** [priorityOrder[key]] for the object literal
    [{ high: 3, medium: 2, low: 1 }]: its own three properties, then
    those it inherits. *)
Definition priorityOrder (key : string) : value :=
  if String.eqb key "high" then VNum (JS.Num 3)
  else if String.eqb key "medium" then VNum (JS.Num 2)
  else if String.eqb key "low" then VNum (JS.Num 1)
  else match JS.Object_prototype key with
       | Some text => VObj text
       | None => VUndefined
       end.

(** [priorityOrder[v] || 0]: the value found when it is truthy, as an
    inherited function is.  An array or another object is turned into
    the key that its string spells; no value that is neither a string
    nor an object spells a property of the table. *)
Definition as_rank (v : value) : value :=
  let found := match as_string v with
               | Some key => priorityOrder key
               | None => VUndefined
               end in
  if value_truthy found then found else VNum (JS.Num 0).

(** [a < b]: two strings compare by code units, anything else as
    numbers. *)
Definition js_lt (a b : value) : bool :=
  match as_string a, as_string b with
  | Some s, Some s' => JS.str_lt s s'
  | _, _ => JS.num_lt (ToNumber a) (ToNumber b)
  end.

(** The comparator handed to [Array.prototype.sort]. *)
Definition compare (field order : string) (a b : Todo.t) : Z :=
  let aVal := get_field a field in
  let bVal := get_field b field in
  let '(aVal, bVal) :=
    if JS.includes field "At" || String.eqb field "dueDate"
    then (as_time aVal, as_time bVal) else (aVal, bVal) in
  let '(aVal, bVal) :=
    if String.eqb field "priority"
    then (as_rank aVal, as_rank bVal) else (aVal, bVal) in
  if js_lt aVal bVal then (if String.eqb order "asc" then -1 else 1)
  else if js_lt bVal aVal then (if String.eqb order "asc" then 1 else -1)
  else 0.

(** [sort(field = 'createdAt', order = 'desc')]: a missing argument
    takes its default; the array sorted is a copy. *)
Definition sort (this : t) (field order : option string) : list Todo.t :=
  let field := default "createdAt" field in
  let order := default "desc" order in
  JS.Array_sort (compare field order) (todos this).

(** [load()].  [None] says that a stored record is outside the typing of
    the embedding (see [Todo.revive]). *)
Definition load (st : state) : option (completion unit * state) :=
  let (r, st) := in_world (StorageService.load (storageService (self st))) st in
  match r with
  | Return data =>
      data ← mapM Todo.revive data;
      Some ((todos ← in_world (Todo.construct_all data);
             set_todos todos;;
             notify) st)
  | Throw e => Some (Throw e, st)
  end.

(** [arr.filter(p)] for a callback that reads the clock. *)
Fixpoint filter_by {A} (p : A → M World bool) (arr : list A) : M World (list A) :=
  match arr with
  | [] => mret []
  | x :: arr =>
      keep ← p x;
      rest ← filter_by p arr;
      mret (if keep : bool then x :: rest else rest)
  end.

(** [getStats()] *)
Definition getStats `{Calendar} : M state stats :=
  st ← get;
  let total := Z.of_nat (List.length (todos (self st))) in
  let completed :=
    Z.of_nat (List.length (List.filter Todo.completed (todos (self st)))) in
  let active := total - completed in
  overdue ← in_world (filter_by Todo.isOverdue (todos (self st)));
  dueToday ← in_world (filter_by Todo.isDueToday (todos (self st)));
  mret (mk_stats total completed active
          (Z.of_nat (List.length overdue)) (Z.of_nat (List.length dueToday))).

(** [set.add(x)] for a [Set] of strings, kept as the array of its
    elements in the order they came in. *)
Definition Set_add (set : list string) (x : string) : list string :=
  if bool_decide (x ∈ set) then set else set ++ [x].

(** The order [sort()] takes without a comparator, on strings. *)
Definition default_compare (a b : string) : Z :=
  if JS.str_lt a b then -1 else if JS.str_lt b a then 1 else 0.

(** [getAllCategories()] *)
Definition getAllCategories (this : t) : list string :=
  let categories :=
    foldl (λ set todo, foldl Set_add set (Todo.categories todo)) [] (todos this) in
  JS.Array_sort default_compare categories.

(** [getAllTags()] *)
Definition getAllTags (this : t) : list string :=
  let tags :=
    foldl (λ set todo, foldl Set_add set (Todo.tags todo)) [] (todos this) in
  JS.Array_sort default_compare tags.

(** [clear()] *)
Definition clear : M state unit :=
  set_todos [];;
  save.

Definition set_listeners (l : list nat) : M state unit :=
  modify (λ st,
    mk_state (mk (storageService (self st)) (todos (self st)) l)
             (world st) (delivered st)).

(** [subscribe(listener)] *)
Definition subscribe (listener : nat) : M state unit :=
  st ← get;
  set_listeners (listeners (self st) ++ [listener]).

(** [unsubscribe(listener)] *)
Definition unsubscribe (listener : nat) : M state unit :=
  st ← get;
  set_listeners
    (List.filter (λ l, negb (Nat.eqb l listener)) (listeners (self st))).

End Methods.

End TodoList.

(** ** The application: the order of the list it shows ([app.js]) *)

Module TodoApp.

Section Methods.
Context `{Platform}.

(** [new Date(b) - new Date(a)] on the time values of the two dates. *)
Definition minus (b a : JS.number) : JS.number :=
  match b, a with
  | JS.Num y, JS.Num x => JS.Num (y - x)
  | _, _ => JS.NaN
  end.

(** The comparator of [sortTodos]. *)
Definition compare (a b : Todo.t) : JS.number :=
  if negb (Bool.eqb (Todo.completed a) (Todo.completed b))
  then JS.Num (if Todo.completed a then 1 else -1)
  else minus (Date_getTime (Todo.createdAt b)) (Date_getTime (Todo.createdAt a)).

(** What [Array.prototype.sort] makes of the number a comparator
    returns: [NaN] counts as 0. *)
Definition sort_order (v : JS.number) : Z :=
  match v with
  | JS.Num z => z
  | JS.NaN => 0
  end.

(** [sortTodos(todos)] *)
Definition sortTodos (todos : list Todo.t) : list Todo.t :=
  JS.Array_sort (λ a b, sort_order (compare a b)) todos.

End Methods.

End TodoApp.

(** ** Running a computation *)

(** The state a computation leaves. *)
Definition state_after {S A} (c : M S A) (s : S) : S := (c s).2.

(** ** A concrete platform and concrete data, for the examples *)

Module Sample.

Definition decimal_unit (n : nat) : string :=
  String (ascii_of_nat (48 + n mod 10)) EmptyString.

Definition double_quote : string := String (ascii_of_nat 34) EmptyString.

Definition quote (s : string) : string := double_quote +:+ s +:+ double_quote.

(** A serializer for values whose strings need no escape. *)
Fixpoint stringify (j : JS.json) : string :=
  match j with
  | JS.JNull => "null"
  | JS.JBool b => if b then "true" else "false"
  | JS.JNum z => pretty z
  | JS.JStr s => quote s
  | JS.JArr items => "[" +:+ String.concat "," (stringify <$> items) +:+ "]"
  | JS.JObj props =>
      "{" +:+ String.concat ","
                ((λ p : string * JS.json, quote p.1 +:+ ":" +:+ stringify p.2)
                   <$> props) +:+ "}"
  end.

(** A reader for the texts [stringify] writes: the JSON grammar with
    integers for numbers and strings without escapes.  Of two members
    with one name the later one counts, as in [JSON.parse].  [fuel] bounds
    the nesting and the number of elements. *)
Definition is_json_space (c : ascii) : bool :=
  let n := N_of_ascii c in
  ((n =? 32) || (n =? 9) || (n =? 10) || (n =? 13))%N.

Fixpoint skip_space (s : string) : string :=
  match s with
  | EmptyString => EmptyString
  | String c r => if is_json_space c then skip_space r else s
  end.

(** What follows the literal [lit] at the start of [s]. *)
Fixpoint after (lit s : string) : option string :=
  match lit, s with
  | EmptyString, _ => Some s
  | String c lit, String d s => if Ascii.eqb c d then after lit s else None
  | String _ _, EmptyString => None
  end.

(** The code units up to the closing quote, and what follows it. *)
Fixpoint read_string (s : string) : option (string * string) :=
  match s with
  | EmptyString => None
  | String c r =>
      if Ascii.eqb c (ascii_of_nat 34) then Some (EmptyString, r)
      else if Ascii.eqb c (ascii_of_nat 92) then None
      else '(str, rest) ← read_string r; Some (String c str, rest)
  end.

Fixpoint read_digits (acc : Z) (s : string) : Z * string :=
  match s with
  | EmptyString => (acc, EmptyString)
  | String c r =>
      match JS.digit c with
      | Some d => read_digits (10 * acc + d) r
      | None => (acc, s)
      end
  end.

Definition read_number (s : string) : option (Z * string) :=
  match s with
  | EmptyString => None
  | String c r =>
      if Ascii.eqb c "-" then
        match r with
        | String d _ =>
            if bool_decide (is_Some (JS.digit d))
            then let (n, rest) := read_digits 0 r in Some (- n, rest)
            else None
        | EmptyString => None
        end
      else if bool_decide (is_Some (JS.digit c)) then Some (read_digits 0 s)
      else None
  end.

Definition with_member (name : string) (v : JS.json)
  (members : list (string * JS.json)) : list (string * JS.json) :=
  if existsb (λ m : string * JS.json, String.eqb m.1 name) members
  then members else (name, v) :: members.

Fixpoint read_value (fuel : nat) (s : string) : option (JS.json * string) :=
  match fuel with
  | O => None
  | S fuel =>
      match skip_space s with
      | EmptyString => None
      | String c r as s =>
          if Ascii.eqb c "[" then
            match skip_space r with
            | String d rest as r' =>
                if Ascii.eqb d "]" then Some (JS.JArr [], rest)
                else '(items, rest) ← read_items fuel r'; Some (JS.JArr items, rest)
            | EmptyString => None
            end
          else if Ascii.eqb c "{" then
            match skip_space r with
            | String d rest as r' =>
                if Ascii.eqb d "}" then Some (JS.JObj [], rest)
                else '(members, rest) ← read_members fuel r';
                     Some (JS.JObj members, rest)
            | EmptyString => None
            end
          else if Ascii.eqb c (ascii_of_nat 34) then
            '(str, rest) ← read_string r; Some (JS.JStr str, rest)
          else if Ascii.eqb c "n" then
            rest ← after "null" s; Some (JS.JNull, rest)
          else if Ascii.eqb c "t" then
            rest ← after "true" s; Some (JS.JBool true, rest)
          else if Ascii.eqb c "f" then
            rest ← after "false" s; Some (JS.JBool false, rest)
          else '(n, rest) ← read_number s; Some (JS.JNum n, rest)
      end
  end
with read_items (fuel : nat) (s : string) : option (list JS.json * string) :=
  match fuel with
  | O => None
  | S fuel =>
      '(item, rest) ← read_value fuel s;
      match skip_space rest with
      | String c r =>
          if Ascii.eqb c "," then
            '(items, rest) ← read_items fuel r; Some (item :: items, rest)
          else if Ascii.eqb c "]" then Some ([item], r)
          else None
      | EmptyString => None
      end
  end
with read_members (fuel : nat) (s : string)
  : option (list (string * JS.json) * string) :=
  match fuel with
  | O => None
  | S fuel =>
      match skip_space s with
      | String c r =>
          if Ascii.eqb c (ascii_of_nat 34) then
            '(name, rest) ← read_string r;
            match skip_space rest with
            | String c r =>
                if Ascii.eqb c ":" then
                  '(v, rest) ← read_value fuel r;
                  match skip_space rest with
                  | String c r =>
                      if Ascii.eqb c "," then
                        '(members, rest) ← read_members fuel r;
                        Some (with_member name v members, rest)
                      else if Ascii.eqb c "}" then Some ([(name, v)], r)
                      else None
                  | EmptyString => None
                  end
                else None
            | EmptyString => None
            end
          else None
      | EmptyString => None
      end
  end.

Definition parse (text : string) : option JS.json :=
  '(j, rest) ← read_value (2 * String.length text + 2) text;
  match skip_space rest with
  | EmptyString => Some j
  | String _ _ => None
  end.

(** A clock that stands at ten o'clock on the first of May 2024 and
    moves by a second per read, ids that count, no date format beyond
    the standard one, a store without a quota. *)
#[local] Instance platform : Platform := {|
  clock_iso n := "2024-05-01T10:00:0" +:+ decimal_unit n +:+ ".000Z";
  id_token n := "1714557600000-sample" +:+ decimal_unit n;
  date_fallback _ := JS.NaN;
  JSON_parse := parse;
  JSON_parse_empty := eq_refl;
  JSON_stringify := stringify;
  storage_accepts _ := true;
  StringToNumber _ := JS.NaN
|}.

Definition empty_world : World := mk_World ∅ 0 [].

Definition service : StorageService.t := StorageService.constructor None.

(** A task with the given id, priority, completion and due date. *)
Definition task (id priority : string) (completed : bool)
  (dueDate : option string) : Todo.t :=
  Todo.mk id ("task " +:+ id) "" completed priority dueDate [] []
    "2024-04-01T08:00:00.000Z" "2024-04-01T08:00:00.000Z"
    (if completed then Some "2024-04-02T09:00:00.000Z" else None).

Definition undated : Todo.t := task "1" "medium" false None.
Definition early : Todo.t := task "2" "medium" false (Some "1960-01-01").
Definition dated : Todo.t := task "3" "medium" false (Some "2024-01-01").
Definition unparseable : Todo.t := task "4" "medium" false (Some "not a date").

Definition holding (l : list Todo.t) : TodoList.t := TodoList.mk service l [].

(** The field records [{ completed: true }], [{ tags: ['work'] }]
    and [{ title: 'x', tags: parseTags('work, #home') }]. *)
Definition completed_only : Todo.fields :=
  Todo.mk_fields None None None (Some true) None None None None None None None.
Definition plain_tag : Todo.fields :=
  Todo.mk_fields None None None None None None None (Some ["work"]) None None None.
Definition parsed_tags : Todo.fields :=
  Todo.mk_fields None (Some "x") None None None None None
    (Some (parseTags "work, #home")) None None None.

(** Five tasks: three of high priority and not completed, one of high
    priority and completed, one of low priority and not completed. *)
Definition five_tasks : list Todo.t :=
  [task "1" "high" false None; task "2" "high" true None;
   task "3" "high" false None; task "4" "low" false None;
   task "5" "high" false None].

(** The criteria [{ status: "active", priority: "high" }]. *)
Definition active_high : TodoList.criteria :=
  TodoList.mk_criteria (Some "active") (Some "high") None None None.

(** A world whose store holds [text] under the key of [service]. *)
Definition world_storing (text : string) : World :=
  mk_World {[ StorageService.key service := text ]} 0 [].

(** An envelope of an older version with two raw records. *)
Definition old_envelope : JS.json :=
  JS.JObj [("version", JS.JStr "0.9.0");
           ("todos", JS.JArr [JS.JObj [("title", JS.JStr "a")]; JS.JNum 7]);
           ("lastUpdated", JS.JStr "2023-01-01T00:00:00.000Z")].

(** Two tasks, and the second of them. *)
Definition second_task : Todo.t := task "2" "low" false None.
Definition two_tasks : list Todo.t := [task "1" "high" true None; second_task].

(** The task that [add] makes of [parsed_tags] in [collection two_tasks]. *)
Definition added_task : Todo.t :=
  Todo.mk "1714557600000-sample0" "x" "" false "medium" None []
    ["#work"; "#home"] "2024-05-01T10:00:01.000Z" "2024-05-01T10:00:02.000Z" None.

Definition collection (l : list Todo.t) : TodoList.state :=
  TodoList.mk_state (TodoList.mk service l [7%nat]) empty_world [].

End Sample.


(** ** What the specification says, in its own words *)

(** "[completedAt] is non-null if and only if [completed] is true" *)
Definition completion_invariant (todo : Todo.t) : Prop :=
  Todo.completedAt todo ≠ None ↔ Todo.completed todo = true.

(** "normalized to start with a leading [#] marker" *)
Definition hash_marked (tag : string) : Prop := JS.startsWith tag "#" = true.

(** [toggleComplete()] applied twice. *)
Definition toggleComplete_twice `{Platform} (this : Todo.t) : M World Todo.t :=
  this ← Todo.toggleComplete this; Todo.toggleComplete this.

Section Persisting.
Context `{Platform}.

(** The text [persist()] writes for a collection at a time: the envelope
    of the serialized tasks. *)
Definition persisted (this : TodoList.t) (now : string) : string :=
  JSON_stringify
    (StorageService.envelope (TodoList.storageService this)
       (Todo.toJSON <$> TodoList.todos this) now).

(** The store after [persist()]: the text under the key of the adapter
    when the store takes it, the store as it was when it does not. *)
Definition store_after_persist (this : TodoList.t) (w : World)
  : gmap string string :=
  let contents :=
    <[StorageService.key (TodoList.storageService this)
      := persisted this (clock_iso (reads w))]> (localStorage w) in
  if storage_accepts contents then contents else localStorage w.

(** The collection with one more task at its end. *)
Definition appended (this : TodoList.t) (todo : Todo.t) : TodoList.t :=
  TodoList.mk (TodoList.storageService this)
    (TodoList.todos this ++ [todo]) (TodoList.listeners this).
End Persisting.

(** The field record [{ title: "" }]. *)
Definition title_emptied : Todo.fields :=
  Todo.mk_fields None (Some "") None None None None None None None None None.

(** A criterion is supplied when its field is there and is not the empty
    string, which is how the filter bar leaves a criterion unset. *)
Definition supplied (f : option string) (s : string) : Prop :=
  f = Some s ∧ s ≠ "".

(** Two strings that differ in the case of their letters only. *)
Inductive same_ignoring_case : string → string → Prop :=
| same_empty : same_ignoring_case "" ""
| same_unit c d s t :
    JS.lower_unit c = JS.lower_unit d → same_ignoring_case s t →
    same_ignoring_case (String c s) (String d t).

(** "a case-insensitive substring match" of [needle] against [text] *)
Definition occurs_ignoring_case (needle text : string) : Prop :=
  ∃ before found after,
    text = before +:+ found +:+ after ∧ same_ignoring_case found needle.

(** A task matches "ALL supplied criteria". *)
Definition satisfies (c : TodoList.criteria) (todo : Todo.t) : Prop :=
  (TodoList.status c = Some "active" → Todo.completed todo = false)
  ∧ (TodoList.status c = Some "completed" → Todo.completed todo = true)
  ∧ (∀ p, supplied (TodoList.priority c) p → Todo.priority todo = p)
  ∧ (∀ cat, supplied (TodoList.category c) cat → cat ∈ Todo.categories todo)
  ∧ (∀ tg, supplied (TodoList.tag c) tg → tg ∈ Todo.tags todo)
  ∧ (∀ s, supplied (TodoList.search c) s →
       occurs_ignoring_case s (Todo.title todo)
       ∨ occurs_ignoring_case s (Todo.description todo)).


(** Computations that return and leave the store alone. *)
Definition quiet {A} (c : M World A) : Prop :=
  ∀ w, ∃ a w', c w = (Return a, w') ∧ localStorage w' = localStorage w.

(** An array is in the order of a key, and an element has a given key. *)
Definition by_key {A} (key : A → Z) (a b : A) : Prop := key a <= key b.
Definition has_key {A} (key : A → Z) (v : Z) (a : A) : bool := key a =? v.

(** The key as the order asks for it: as it is for ["asc"], negated for
    any other order. *)
Definition directed (order : string) (k : Z) : Z :=
  if String.eqb order "asc" then k else - k.


(** The priority of a task is none of the names that every object
    inherits ([constructor], [toString] and the like). *)
Definition not_inherited (todo : Todo.t) : Prop :=
  JS.Object_prototype (Todo.priority todo) = None.

(** The string a task holds in a field, a date when the field is one;
    [None] when the field is empty, [null], missing or no string. *)
Definition date_of (todo : Todo.t) (field : string) : option string :=
  match TodoList.get_field todo field with
  | TodoList.VStr s => if JS.truthy s then Some s else None
  | _ => None
  end.

Section Instants.
Context `{Platform}.

(** The instant of the date in a field, a missing date counting as the
    epoch. *)
Definition instant (todo : Todo.t) (field : string) : JS.number :=
  match date_of todo field with
  | Some s => Date_getTime s
  | None => JS.Num 0
  end.

Definition instant_ms (todo : Todo.t) (field : string) : Z :=
  match instant todo field with
  | JS.Num ms => ms
  | JS.NaN => 0
  end.
End Instants.

(** The fields [sort] treats as dates. *)
Definition date_like (field : string) : bool :=
  JS.includes field "At" || String.eqb field "dueDate".

(** A string of white space only; the empty string is one. *)
Definition blank (s : string) : Prop :=
  ∀ c, c ∈ list_ascii_of_string s → JS.is_space c = true.

(** A task that meets the four rules of [validate()]. *)
Definition well_formed `{Platform} (todo : Todo.t) : Prop :=
  ¬ blank (Todo.title todo)
  ∧ JS.length (Todo.title todo) <= 200
  ∧ Todo.priority todo ∈ ["high"; "medium"; "low"]
  ∧ ∀ due, Todo.has_dueDate todo = Some due → Date_getTime due ≠ JS.NaN.

(** A task none of whose fields the constructor would replace: the fields
    it defaults with [||] hold no empty string. *)
Definition revivable (todo : Todo.t) : Prop :=
  Todo.id todo ≠ "" ∧ Todo.priority todo ≠ ""
  ∧ Todo.createdAt todo ≠ "" ∧ Todo.updatedAt todo ≠ ""
  ∧ Todo.dueDate todo ≠ Some "" ∧ Todo.completedAt todo ≠ Some "".

(** The criteria [{ status: s }]. *)
Definition only_status (s : string) : TodoList.criteria :=
  TodoList.mk_criteria (Some s) None None None None.

(** The calls [notify()] makes for a collection: one per subscription, in
    the order of the subscriptions, each with the array of the tasks. *)
Definition calls_of (this : TodoList.t) : list (nat * list Todo.t) :=
  (λ listener, (listener, TodoList.todos this)) <$> TodoList.listeners this.

(** The lexical order of strings by code units. *)
Definition str_before (a b : string) : Prop := JS.str_lt a b = true.

(** The names of the data fields of a task. *)
Definition field_names : list string :=
  ["id"; "title"; "description"; "completed"; "priority"; "dueDate";
   "categories"; "tags"; "createdAt"; "updatedAt"; "completedAt"].

Section Shown.
Context `{Platform}.

(** The creation time of a task as [sortTodos] subtracts it. *)
Definition created_ms (todo : Todo.t) : Z :=
  TodoApp.sort_order (Date_getTime (Todo.createdAt todo)).

(** The order of the list the application shows: a task that is not
    completed before a completed one, and of two tasks that are both
    completed or both not, the one created later first. *)
Definition shown_before (a b : Todo.t) : Prop :=
  (Todo.completed a = false ∧ Todo.completed b = true)
  ∨ (Todo.completed a = Todo.completed b ∧ created_ms b <= created_ms a).
End Shown.

(** Every field of a task, as a field record. *)
Definition fields_of (todo : Todo.t) : Todo.fields :=
  Todo.mk_fields (Some (Todo.id todo)) (Some (Todo.title todo))
    (Some (Todo.description todo)) (Some (Todo.completed todo))
    (Some (Todo.priority todo)) (Some (Todo.dueDate todo))
    (Some (Todo.categories todo)) (Some (Todo.tags todo))
    (Some (Todo.createdAt todo)) (Some (Todo.updatedAt todo))
    (Some (Todo.completedAt todo)).

(** A string without a comma and without white space. *)
Definition unbroken (s : string) : Prop :=
  ∀ c, c ∈ list_ascii_of_string s → tag_separator c = false.

(** A tag as [parseTags] returns it: marked, and in one piece. *)
Definition clean_tag (tag : string) : Prop := hash_marked tag ∧ unbroken tag.

(** The field record [{ completed: flag }]. *)
Definition completed_as (flag : bool) : Todo.fields :=
  Todo.mk_fields None None None (Some flag) None None None None None None None.

(** ** Facts about [Array.prototype.sort] *)

Section SortFacts.
Context {A : Type} (cmp : A → A → Z) (key : A → Z).

(** The comparator orders by [key]. *)
Hypothesis cmp_key : ∀ a b, cmp a b <= 0 ↔ key a <= key b.

Lemma sort_insert_perm x l : JS.sort_insert cmp x l ≡ₚ x :: l.
Proof.
  induction l as [|y l IH]; simpl; [done|].
  destruct (cmp x y <=? 0); [done|].
  rewrite IH. apply perm_swap.
Qed.

Lemma Array_sort_perm l : JS.Array_sort cmp l ≡ₚ l.
Proof.
  induction l as [|x l IH]; simpl; [done|].
  by rewrite sort_insert_perm, IH.
Qed.

Lemma sort_insert_sorted x l :
  StronglySorted (by_key key) l → StronglySorted (by_key key) (JS.sort_insert cmp x l).
Proof.
  induction 1 as [|y l Hl IH Hy]; simpl.
  - repeat constructor.
  - destruct (cmp x y <=? 0) eqn:Hc.
    + apply Z.leb_le, cmp_key in Hc.
      constructor; [by constructor|].
      constructor; [done|].
      eapply Forall_impl; [exact Hy|]. unfold by_key. intros; lia.
    + apply Z.leb_gt in Hc.
      assert (key y <= key x) as Hyx.
      { destruct (Z.le_gt_cases (key x) (key y)) as [Hle|Hgt]; [|lia].
        apply cmp_key in Hle. lia. }
      constructor; [done|].
      rewrite sort_insert_perm. by constructor.
Qed.

Lemma Array_sort_sorted l : StronglySorted (by_key key) (JS.Array_sort cmp l).
Proof.
  induction l as [|x l IH]; simpl; [constructor|].
  by apply sort_insert_sorted.
Qed.

(** Insertion passes only elements of a smaller key, so it never
    overtakes an element of its own key. *)
Lemma sort_insert_stable v x l :
  List.filter (has_key key v) (JS.sort_insert cmp x l)
  = List.filter (has_key key v) (x :: l).
Proof.
  induction l as [|y l IH]; [done|].
  simpl JS.sort_insert. destruct (cmp x y <=? 0) eqn:Hc; [done|].
  apply Z.leb_gt in Hc.
  assert (key x ≠ key y) as Hne.
  { intros Heq. assert (cmp x y <= 0) by (apply cmp_key; lia). lia. }
  simpl in *. rewrite IH. unfold has_key.
  destruct (key x =? v) eqn:Hx, (key y =? v) eqn:Hy; try done.
  apply Z.eqb_eq in Hx, Hy. congruence.
Qed.

Lemma Array_sort_stable v l :
  List.filter (has_key key v) (JS.Array_sort cmp l) = List.filter (has_key key v) l.
Proof.
  induction l as [|x l IH]; [done|].
  simpl JS.Array_sort. rewrite sort_insert_stable. simpl. by rewrite IH.
Qed.

(** Two arrays in key order with the same elements of each key, in the
    same order, are the same array. *)
Lemma sorted_stable_unique l1 l2 :
  StronglySorted (by_key key) l1 → StronglySorted (by_key key) l2 →
  (∀ v, List.filter (has_key key v) l1 = List.filter (has_key key v) l2) →
  l1 = l2.
Proof.
  intros H1. revert l2.
  induction H1 as [|a l1 Hl1 IH Ha]; intros l2 H2 Hf.
  - destruct l2 as [|b l2]; [done|].
    specialize (Hf (key b)). simpl in Hf. unfold has_key in Hf.
    by rewrite Z.eqb_refl in Hf.
  - destruct H2 as [|b l2 Hl2 Hb].
    { specialize (Hf (key a)). simpl in Hf. unfold has_key in Hf.
      by rewrite Z.eqb_refl in Hf. }
    assert (key b <= key a) as Hba.
    { pose proof (Hf (key a)) as Hfa. simpl in Hfa. unfold has_key in Hfa.
      rewrite Z.eqb_refl in Hfa.
      destruct (key b =? key a) eqn:Hk; [apply Z.eqb_eq in Hk; lia|].
      assert (a ∈ l2) as Hin.
      { assert (In a (List.filter (λ x, key x =? key a) l2)) as Hin
          by (rewrite <- Hfa; left; done).
        apply filter_In in Hin as [Hin _]. by apply list_elem_of_In. }
      rewrite Forall_forall in Hb. by apply Hb. }
    assert (key a <= key b) as Hab.
    { pose proof (Hf (key b)) as Hfb. simpl in Hfb. unfold has_key in Hfb.
      rewrite Z.eqb_refl in Hfb.
      destruct (key a =? key b) eqn:Hk; [apply Z.eqb_eq in Hk; lia|].
      assert (b ∈ l1) as Hin.
      { assert (In b (List.filter (λ x, key x =? key b) l1)) as Hin
          by (rewrite Hfb; left; done).
        apply filter_In in Hin as [Hin _]. by apply list_elem_of_In. }
      rewrite Forall_forall in Ha. by apply Ha. }
    assert (a = b) as ->.
    { pose proof (Hf (key a)) as Hfa. simpl in Hfa. unfold has_key in Hfa.
      rewrite Z.eqb_refl in Hfa.
      replace (key b =? key a) with true in Hfa by (symmetry; apply Z.eqb_eq; lia).
      congruence. }
    f_equal. apply IH; [done|].
    intros v. specialize (Hf v). simpl in Hf. unfold has_key in *.
    destruct (key b =? v); congruence.
Qed.

(** Whatever stable sort an engine runs, on a comparator that orders by
    a key it returns what the model returns. *)
Lemma Array_sort_unique l l' :
  StronglySorted (by_key key) l' →
  (∀ v, List.filter (has_key key v) l' = List.filter (has_key key v) l) →
  l' = JS.Array_sort cmp l.
Proof.
  intros Hs Hf. apply sorted_stable_unique; [done|apply Array_sort_sorted|].
  intros v. by rewrite Hf, Array_sort_stable.
Qed.

End SortFacts.

Lemma Array_sort_ext {A} (cmp cmp' : A → A → Z) l :
  (∀ a b, a ∈ l → b ∈ l → (cmp a b <=? 0) = (cmp' a b <=? 0)) →
  JS.Array_sort cmp l = JS.Array_sort cmp' l.
Proof.
  assert (∀ x l0, (∀ b, b ∈ l0 → (cmp x b <=? 0) = (cmp' x b <=? 0)) →
            JS.sort_insert cmp x l0 = JS.sort_insert cmp' x l0) as Hins.
  { intros x l0. induction l0 as [|y l0 IH]; intros Hx; [done|].
    simpl. rewrite (Hx y) by left.
    destruct (cmp' x y <=? 0); [done|].
    f_equal. apply IH. intros b Hb. apply Hx. by right. }
  induction l as [|x l IH]; intros Hl; [done|].
  simpl. rewrite <- IH by (intros a b Ha Hb; apply Hl; by right).
  apply Hins. intros b Hb. apply Hl; [by left|].
  right. by rewrite <- (Array_sort_perm cmp l).
Qed.



Section SortProperties.
Context `{Platform}.




End SortProperties.


(** Outside the hypothesis of C8: the priority [constructor] names a
    function that the table inherits, which is neither smaller nor
    greater than a rank, so that the comparator answers 0 against it and
    [sort] leaves a task of priority low in front of one of priority
    high, whatever the order asked for. *)
Example sort_priority_of_inherited_name :
  ¬ not_inherited (Sample.task "2" "constructor" false None)
  ∧ TodoList.compare (H := Sample.platform) "priority" "desc"
      (Sample.task "1" "low" false None)
      (Sample.task "2" "constructor" false None) = 0
  ∧ TodoList.compare (H := Sample.platform) "priority" "desc"
      (Sample.task "2" "constructor" false None)
      (Sample.task "3" "high" false None) = 0
  ∧ TodoList.sort (H := Sample.platform)
      (Sample.holding
         [Sample.task "1" "low" false None;
          Sample.task "2" "constructor" false None;
          Sample.task "3" "high" false None])
      (Some "priority") (Some "desc")
    = [Sample.task "1" "low" false None;
       Sample.task "2" "constructor" false None;
       Sample.task "3" "high" false None].
Proof. split; [by intros ?|]. repeat split; vm_compute; reflexivity. Qed.

Section DateSortProperties.
Context `{Platform}.

(** A field that [sort] treats as a date holds a string, [null] or
    nothing. *)
Lemma get_field_date_like todo field :
  date_like field = true →
  TodoList.as_time (TodoList.get_field todo field)
  = TodoList.VNum (instant todo field).
Proof.
  intros Hd. unfold instant, date_of, TodoList.get_field.
  destruct todo as [? ? ? ? ? due ? ? created updated done_at].
  repeat match goal with
  | |- context [String.eqb field ?name] =>
      destruct (String.eqb_spec field name) as [->|?];
      [vm_compute in Hd; try discriminate Hd|]
  end;
  simpl; unfold TodoList.as_time;
  destruct due as [[|]|], done_at as [[|]|], created, updated; reflexivity.
Qed.

Lemma date_like_not_priority field :
  date_like field = true → String.eqb field "priority" = false.
Proof.
  intros Hd. destruct (String.eqb field "priority") eqn:Hp; [|done].
  apply String.eqb_eq in Hp. by subst field.
Qed.

Lemma compare_date field order a b :
  date_like field = true →
  TodoList.compare field order a b
  = if JS.num_lt (instant a field) (instant b field)
    then (if String.eqb order "asc" then -1 else 1)
    else if JS.num_lt (instant b field) (instant a field)
         then (if String.eqb order "asc" then 1 else -1)
         else 0.
Proof.
  intros Hd. unfold TodoList.compare.
  rewrite (date_like_not_priority _ Hd).
  unfold date_like in Hd. rewrite Hd.
  by rewrite !get_field_date_like by done.
Qed.

Lemma compare_instants field order a b :
  date_like field = true →
  instant a field ≠ JS.NaN → instant b field ≠ JS.NaN →
  TodoList.compare field order a b <= 0
  ↔ directed order (instant_ms a field) <= directed order (instant_ms b field).
Proof.
  intros Hd Ha Hb. rewrite compare_date by done.
  unfold instant_ms, directed.
  destruct (instant a field) as [x|]; [|done].
  destruct (instant b field) as [y|]; [|done]. simpl.
  destruct (x <? y) eqn:Hxy; [apply Z.ltb_lt in Hxy|apply Z.ltb_ge in Hxy].
  - destruct (String.eqb order "asc"); lia.
  - destruct (y <? x) eqn:Hyx; [apply Z.ltb_lt in Hyx|apply Z.ltb_ge in Hyx];
      destruct (String.eqb order "asc"); lia.
Qed.

(** C5, as the code has it.  On a field it treats as a date, [sort]
    compares the tasks by the instant of the field, a missing date
    (absent, [null] or empty) counting as instant 0, the epoch: when every
    date of the collection is missing or parseable, the result holds the
    tasks of the collection in the order of these instants (falling,
    unless the order asked for is ["asc"]), tasks of one instant keeping
    their order.  A task without a date so comes before the tasks dated
    after the epoch and behind those dated before it.  Against a task
    whose date does not parse the comparator answers 0, whatever the
    other task is. *)
Theorem sort_date_by_instant (field : string) :
  date_like field = true →
  (∀ (this : TodoList.t) (order : option string),
     Forall (λ todo, instant todo field ≠ JS.NaN) (TodoList.todos this) →
     let sorted := TodoList.sort this (Some field) order in
     let dir := default "desc" order in
     sorted ≡ₚ TodoList.todos this
     ∧ StronglySorted
         (by_key (λ todo, directed dir (instant_ms todo field))) sorted
     ∧ ∀ k, List.filter (has_key (λ todo, instant_ms todo field) k) sorted
            = List.filter (has_key (λ todo, instant_ms todo field) k)
                (TodoList.todos this))
  ∧ (∀ todo, date_of todo field = None → instant todo field = JS.Num 0)
  ∧ (∀ todo ms, instant todo field = JS.Num ms → 0 < ms →
       ∀ undated, date_of undated field = None →
         instant_ms undated field < instant_ms todo field)
  ∧ (∀ order a b, instant a field = JS.NaN →
       TodoList.compare field order a b = 0
       ∧ TodoList.compare field order b a = 0).
Proof.
  intros Hd. split; [|split; [|split]].
  - intros this order Hparse sorted dir. subst sorted.
    unfold TodoList.sort. simpl default. fold dir.
    set (key := λ todo, directed dir (instant_ms todo field)).
    set (cmp' := λ a b : Todo.t, key a - key b).
    assert (∀ a b, cmp' a b <= 0 ↔ key a <= key b) as Hcmp'
      by (intros; unfold cmp'; lia).
    rewrite (Array_sort_ext (TodoList.compare field dir) cmp').
    2:{ intros a b Ha Hb. rewrite Forall_forall in Hparse.
        pose proof (compare_instants field dir a b Hd
                      (Hparse a Ha) (Hparse b Hb)) as Hab.
        specialize (Hcmp' a b). fold (key a) (key b) in Hab.
        destruct (Z.leb_spec (TodoList.compare field dir a b) 0),
                 (Z.leb_spec (cmp' a b) 0); try done; lia. }
    split; [apply Array_sort_perm|].
    split; [by apply Array_sort_sorted|].
    intros k. destruct (String.eqb dir "asc") eqn:Hdir.
    + pose proof (Array_sort_stable cmp' key Hcmp' k (TodoList.todos this))
        as Hst.
      unfold has_key, key, directed in *. rewrite Hdir in Hst. exact Hst.
    + pose proof (Array_sort_stable cmp' key Hcmp' (- k) (TodoList.todos this))
        as Hst.
      unfold has_key, key, directed in *. rewrite Hdir in Hst.
      assert (∀ a, (- instant_ms a field =? - k) = (instant_ms a field =? k))
        as Hneg.
      { intros a. destruct (instant_ms a field =? k) eqn:Hk;
          [apply Z.eqb_eq in Hk; apply Z.eqb_eq
          |apply Z.eqb_neq in Hk; apply Z.eqb_neq]; lia. }
      rewrite <- !(filter_ext _ _ Hneg). exact Hst.
  - intros todo Hnone. unfold instant. by rewrite Hnone.
  - intros todo ms Hms Hpos undated Hnone.
    unfold instant_ms, instant. rewrite Hnone.
    unfold instant in Hms. by rewrite Hms.
  - intros order a b Ha. rewrite !compare_date by done. rewrite Ha. simpl.
    by destruct (instant b field).
Qed.

End DateSortProperties.

(** C5 at a collection of three tasks due on no day, in 1960 and in 2024:
    every date is missing or parseable. *)
Lemma sort_date_by_instant_witness :
  TodoList.sort (H := Sample.platform)
    (Sample.holding [Sample.undated; Sample.dated; Sample.early])
    (Some "dueDate") (Some "asc")
  ≡ₚ [Sample.undated; Sample.dated; Sample.early].
Proof.
  refine (proj1 (proj1 (sort_date_by_instant (H := Sample.platform) "dueDate" _)
                   (Sample.holding [Sample.undated; Sample.dated; Sample.early])
                   (Some "asc") _)).
  - reflexivity.
  - repeat constructor; vm_compute; discriminate.
Defined.

(** C5 fails as it is stated: sorted by due date with the earliest first, a
    task without a due date comes behind a task due in 1960, and a task
    whose due date does not parse stays behind a task due in 2024. *)
Lemma sort_date_missing_not_earliest :
  Todo.dueDate Sample.undated = None
  ∧ Date_getTime (H := Sample.platform) "1960-01-01" = JS.Num (-315619200000)
  ∧ TodoList.sort (H := Sample.platform)
      (Sample.holding [Sample.undated; Sample.early])
      (Some "dueDate") (Some "asc")
    = [Sample.early; Sample.undated]
  ∧ Date_getTime (H := Sample.platform) "not a date" = JS.NaN
  ∧ Date_getTime (H := Sample.platform) "2024-01-01" = JS.Num 1704067200000
  ∧ TodoList.sort (H := Sample.platform)
      (Sample.holding [Sample.dated; Sample.unparseable])
      (Some "dueDate") (Some "asc")
    = [Sample.dated; Sample.unparseable].
Proof. repeat split; vm_compute; reflexivity. Qed.

Section EntityProperties.
Context `{Platform}.

Lemma quiet_mret {A} (a : A) : quiet (mret a).
Proof. intros w. by exists a, w. Qed.

Lemma quiet_read {A} (f : nat → A) : quiet (n ← read_platform; mret (f n)).
Proof. intros w. by do 2 eexists. Qed.

Lemma quiet_str_or v fallback : quiet fallback → quiet (Todo.str_or v fallback).
Proof.
  intros Hf. unfold Todo.str_or.
  destruct v as [s|]; [|done].
  destruct (JS.truthy s); [apply quiet_mret|done].
Qed.

Lemma bind_returns {S A B} (c : M S A) (f : A → M S B) s a s' :
  c s = (Return a, s') → (c ≫= f) s = f a s'.
Proof. intros Hc. unfold mbind, M_bind. by rewrite Hc. Qed.

(** The constructor returns, with [completed], [completedAt] and [tags]
    as the field record gives them. *)
Lemma constructor_returns data w :
  ∃ todo w',
    Todo.constructor data w = (Return todo, w')
    ∧ Todo.completed todo = default false (Todo.d_completed data)
    ∧ Todo.completedAt todo = Todo.str_or_null (Todo.d_completedAt data)
    ∧ Todo.tags todo = default [] (Todo.d_tags data)
    ∧ localStorage w' = localStorage w.
Proof.
  unfold Todo.constructor.
  destruct (quiet_str_or (Todo.d_id data) Todo.generateId
              (quiet_read id_token) w) as (id & w1 & E1 & L1).
  destruct (quiet_str_or (Todo.d_title data) (mret "")
              (quiet_mret _) w1) as (title & w2 & E2 & L2).
  destruct (quiet_str_or (Todo.d_description data) (mret "")
              (quiet_mret _) w2) as (description & w3 & E3 & L3).
  destruct (quiet_str_or (Todo.d_priority data) (mret "medium")
              (quiet_mret _) w3) as (priority & w4 & E4 & L4).
  destruct (quiet_str_or (Todo.d_createdAt data) Date_toISOString_now
              (quiet_read clock_iso) w4) as (createdAt & w5 & E5 & L5).
  destruct (quiet_str_or (Todo.d_updatedAt data) Date_toISOString_now
              (quiet_read clock_iso) w5) as (updatedAt & w6 & E6 & L6).
  do 2 eexists. split.
  { rewrite (bind_returns _ _ _ _ _ E1), (bind_returns _ _ _ _ _ E2),
      (bind_returns _ _ _ _ _ E3), (bind_returns _ _ _ _ _ E4),
      (bind_returns _ _ _ _ _ E5), (bind_returns _ _ _ _ _ E6).
    reflexivity. }
  simpl. repeat split. congruence.
Qed.

Lemma update_returns this data w :
  ∃ now,
    Todo.update this data w
    = (Return (Todo.set_updatedAt (Todo.assign this data) now),
       mk_World (localStorage w) (S (reads w)) (outputs w)).
Proof. by eexists. Qed.

Lemma toggleComplete_returns this w :
  ∃ this' w',
    Todo.toggleComplete this w = (Return this', w')
    ∧ Todo.completed this' = negb (Todo.completed this)
    ∧ Todo.completedAt this'
      = (if Todo.completed this then None else Some (clock_iso (reads w)))
    ∧ reads w' = ((if Todo.completed this then 1 else 2) + reads w)%nat.
Proof.
  unfold Todo.toggleComplete.
  destruct (Todo.completed this); do 2 eexists; (split; [cbn; reflexivity|]); done.
Qed.

(** C1, as the code has it.  [toggleComplete()] leaves [completedAt]
    non-null exactly when [completed] is true.  The constructor and
    [update] store what the field record gives for the two fields (the
    constructor [false] and [null] for a field that is missing or
    falsy, [update] what the task had for a field that is missing), so
    their result meets the invariant exactly when that pair of values
    does: always when the constructor is given neither field, and as
    before the call when [update] is given neither. *)
Theorem completion_invariant_by_operation :
  (∀ this w, ∃ this' w',
      Todo.toggleComplete this w = (Return this', w')
      ∧ completion_invariant this')
  ∧ (∀ data w, ∃ todo w',
      Todo.constructor data w = (Return todo, w')
      ∧ (completion_invariant todo
         ↔ (Todo.str_or_null (Todo.d_completedAt data) ≠ None
            ↔ default false (Todo.d_completed data) = true))
      ∧ (Todo.d_completed data = None → Todo.d_completedAt data = None →
         completion_invariant todo))
  ∧ (∀ this data w, ∃ this' w',
      Todo.update this data w = (Return this', w')
      ∧ (completion_invariant this'
         ↔ (default (Todo.completedAt this) (Todo.d_completedAt data) ≠ None
            ↔ default (Todo.completed this) (Todo.d_completed data) = true))
      ∧ (Todo.d_completed data = None → Todo.d_completedAt data = None →
         (completion_invariant this' ↔ completion_invariant this))).
Proof.
  split; [|split].
  - intros this w.
    destruct (toggleComplete_returns this w) as (this' & w' & E & Hc & Hat & _).
    exists this', w'. split; [done|].
    unfold completion_invariant. rewrite Hc, Hat.
    by destruct (Todo.completed this).
  - intros data w.
    destruct (constructor_returns data w) as (todo & w' & E & Hc & Hat & _).
    exists todo, w'. split; [done|].
    unfold completion_invariant. rewrite Hc, Hat.
    split; [done|]. by intros -> ->.
  - intros this data w.
    destruct (update_returns this data w) as (now & E).
    do 2 eexists. split; [exact E|].
    unfold completion_invariant. simpl.
    split; [done|]. by intros -> ->.
Qed.

(** C7, as the code has it.  Two calls of [toggleComplete()] return and
    give [completed] its first value back.  [completedAt] is absent after
    them when the task was not completed before them; when it was,
    [completedAt] is the time the clock tells at the second call. *)
Theorem toggleComplete_twice_completed (this : Todo.t) (w : World) :
  ∃ this'' w'',
    toggleComplete_twice this w = (Return this'', w'')
    ∧ Todo.completed this'' = Todo.completed this
    ∧ Todo.completedAt this''
      = (if Todo.completed this then Some (clock_iso (S (reads w))) else None).
Proof.
  unfold toggleComplete_twice.
  destruct (toggleComplete_returns this w) as (this1 & w1 & E1 & Hc1 & _ & Hr1).
  destruct (toggleComplete_returns this1 w1) as (this2 & w2 & E2 & Hc2 & Hat2 & _).
  exists this2, w2. rewrite (bind_returns _ _ _ _ _ E1).
  split; [done|]. rewrite Hc2, Hat2, Hc1, Hr1.
  by destruct (Todo.completed this).
Qed.

Lemma startsWith_hash_prefixed tag : JS.startsWith ("#" +:+ tag) "#" = true.
Proof. unfold JS.startsWith. simpl. by destruct tag. Qed.

(** C9, as the code has it.  Every tag [parseTags] returns starts with
    [#].  The constructor and [update] store the tags the field record
    gives, as they are (the constructor none when the record gives none,
    [update] the tags the task had): the tags of a task start with [#]
    when the tags it was given do, as those from [parseTags] do. *)
Theorem tags_hash_marked_by_parseTags :
  (∀ tagString, Forall hash_marked (parseTags tagString))
  ∧ (∀ data w, ∃ todo w',
      Todo.constructor data w = (Return todo, w')
      ∧ Todo.tags todo = default [] (Todo.d_tags data))
  ∧ (∀ this data w, ∃ this' w',
      Todo.update this data w = (Return this', w')
      ∧ Todo.tags this' = default (Todo.tags this) (Todo.d_tags data)).
Proof.
  split; [|split].
  - intros tagString. unfold parseTags.
    destruct (negb (JS.truthy tagString)); [constructor|].
    apply Forall_fmap, Forall_forall. intros tag _. simpl. unfold hash_marked.
    destruct (JS.startsWith tag "#") eqn:Htag; [done|].
    apply startsWith_hash_prefixed.
  - intros data w.
    destruct (constructor_returns data w) as (todo & w' & E & _ & _ & Ht & _).
    by exists todo, w'.
  - intros this data w.
    destruct (update_returns this data w) as (now & E).
    do 2 eexists. split; [exact E|done].
Qed.

End EntityProperties.

(** C1 at the empty field record, and at an update of the title and the
    tags of a completed task. *)
Lemma completion_invariant_by_operation_witness :
  (∃ todo w',
     Todo.constructor (H := Sample.platform) Todo.no_fields Sample.empty_world
     = (Return todo, w')
     ∧ completion_invariant todo)
  ∧ (∃ this' w',
     Todo.update (H := Sample.platform) (Sample.task "1" "high" true None)
       Sample.parsed_tags Sample.empty_world
     = (Return this', w')
     ∧ completion_invariant this').
Proof.
  destruct (completion_invariant_by_operation (H := Sample.platform))
    as (_ & Hnew & Hupdate).
  split.
  - destruct (Hnew Todo.no_fields Sample.empty_world) as (todo & w' & E & _ & Hinv).
    exists todo, w'. split; [exact E|]. by apply Hinv.
  - destruct (Hupdate (Sample.task "1" "high" true None) Sample.parsed_tags
                Sample.empty_world) as (this' & w' & E & _ & Hinv).
    exists this', w'. split; [exact E|].
    apply Hinv; [reflexivity..|]. by vm_compute.
Defined.

(** C1 fails as it is stated: [new Todo({ completed: true })] is completed
    and has no [completedAt], and so is a task that was not completed after
    [update({ completed: true })]. *)
Lemma completion_invariant_not_kept :
  (∃ todo w',
     Todo.constructor (H := Sample.platform) Sample.completed_only
       Sample.empty_world = (Return todo, w')
     ∧ Todo.completed todo = true ∧ Todo.completedAt todo = None
     ∧ ¬ completion_invariant todo)
  ∧ (∃ this' w',
     Todo.update (H := Sample.platform) (Sample.task "1" "high" false None)
       Sample.completed_only Sample.empty_world = (Return this', w')
     ∧ completion_invariant (Sample.task "1" "high" false None)
     ∧ Todo.completed this' = true ∧ Todo.completedAt this' = None
     ∧ ¬ completion_invariant this').
Proof.
  split; do 2 eexists; (split; [vm_compute; reflexivity|]);
    unfold completion_invariant; simpl; intuition congruence.
Qed.

(** C7 fails as it is stated: a completed task is completed again after two
    calls, with the time of the second call as its [completedAt]. *)
Lemma toggleComplete_twice_not_absent :
  ∃ this'' w'',
    toggleComplete_twice (H := Sample.platform)
      (Sample.task "1" "high" true None) Sample.empty_world
    = (Return this'', w'')
    ∧ Todo.completed this'' = true
    ∧ Todo.completedAt this'' = Some "2024-05-01T10:00:01.000Z"
    ∧ Todo.completedAt this'' ≠ None.
Proof. do 2 eexists. split; [vm_compute; reflexivity|]. by simpl. Qed.

(** C9 fails as it is stated: [new Todo({ tags: ['work'] })] has the tag
    [work], without the marker, and so has a task after
    [update({ tags: ['work'] })]. *)
Lemma tags_not_hash_marked :
  (∃ todo w',
     Todo.constructor (H := Sample.platform) Sample.plain_tag Sample.empty_world
     = (Return todo, w')
     ∧ Todo.tags todo = ["work"]
     ∧ ¬ Forall hash_marked (Todo.tags todo))
  ∧ (∃ this' w',
     Todo.update (H := Sample.platform) (Sample.task "1" "high" false None)
       Sample.plain_tag Sample.empty_world = (Return this', w')
     ∧ Todo.tags this' = ["work"]
     ∧ ¬ Forall hash_marked (Todo.tags this')).
Proof.
  split; do 2 eexists; (split; [vm_compute; reflexivity|]);
    (split; [reflexivity|]); simpl;
    intros Hall; apply Forall_cons in Hall as [Hwork _]; discriminate Hwork.
Qed.

Section StorageProperties.
Context `{Platform}.

(** C3. [load()] returns for every state of the store, and leaves the
    store as it is.  It returns no record when the key is absent, when
    the stored text does not parse, and when the [todos] of the parsed
    value is not an array; otherwise it returns the array stored as
    [todos], whatever the stored version is. *)
Theorem load_never_raises (this : StorageService.t) (w : World) :
  ∃ records w',
    StorageService.load this w = (Return records, w')
    ∧ localStorage w' = localStorage w
    ∧ match localStorage w !! StorageService.key this with
      | None => records = []
      | Some data =>
          match JSON_parse data with
          | None => records = []
          | Some parsed =>
              match JS.prop parsed "todos" with
              | Some (JS.JArr items) => records = items
              | _ => records = []
              end
          end
      end.
Proof.
  unfold StorageService.load, try_catch, getItem.
  unfold mbind, M_bind, get, mret, M_ret. simpl.
  destruct (localStorage w !! StorageService.key this) as [data|] eqn:Hdata;
    [|by do 2 eexists].
  destruct data as [|c data]; simpl.
  { rewrite JSON_parse_empty. by do 2 eexists. }
  unfold StorageService.parse.
  destruct (JSON_parse (String c data)) as [parsed|] eqn:Hparsed; simpl;
    [|by do 2 eexists].
  destruct (negb (JS.json_truthy parsed) || negb (JS.typeof_object parsed))
    eqn:Hshape; simpl.
  - do 2 eexists. split; [reflexivity|]. split; [done|].
    destruct parsed as [| | | |items|props]; try done.
  - unfold StorageService.todos_of.
    destruct (StorageService.version_differs this parsed); simpl;
      do 2 eexists; (split; [reflexivity|]); (split; [done|]);
      by destruct (JS.prop parsed "todos") as [[]|].
Qed.

End StorageProperties.

Section CollectionProperties.
Context `{Platform}.

Lemma storage_save_returns this records w :
  ∃ ok w',
    StorageService.save this records w = (Return ok, w')
    ∧ localStorage w'
      = (let contents :=
           <[StorageService.key this
             := JSON_stringify
                  (StorageService.envelope this records (clock_iso (reads w)))]>
             (localStorage w) in
         if storage_accepts contents then contents else localStorage w).
Proof.
  unfold StorageService.save, try_catch, Date_toISOString_now, setItem.
  unfold mbind, M_bind, read_platform, mret, M_ret. simpl.
  destruct (storage_accepts _); simpl; by do 2 eexists.
Qed.

(** [save()] of the collection returns; it changes the store and tells
    the listeners, and leaves the collection as it is. *)
Lemma save_returns st :
  ∃ st',
    TodoList.save st = (Return (), st')
    ∧ TodoList.self st' = TodoList.self st
    ∧ localStorage (TodoList.world st')
      = store_after_persist (TodoList.self st) (TodoList.world st)
    ∧ TodoList.delivered st'
      = TodoList.delivered st
        ++ ((λ listener, (listener, TodoList.todos (TodoList.self st)))
              <$> TodoList.listeners (TodoList.self st)).
Proof.
  unfold TodoList.save, TodoList.in_world, TodoList.notify.
  unfold mbind, M_bind, get, modify. simpl.
  destruct (storage_save_returns (TodoList.storageService (TodoList.self st))
              (Todo.toJSON <$> TodoList.todos (TodoList.self st))
              (TodoList.world st)) as (ok & w' & E & Hstore).
  rewrite E. simpl. eexists. split; [reflexivity|]. simpl.
  split; [done|]. split; [|done]. exact Hstore.
Qed.

(** C2.  [add(fields)] constructs the task and validates it.  When the
    validation fails, [add] throws an error whose message is the
    messages of the validation joined by [", "], and the tasks of the
    collection, the store and the calls to the listeners are what they
    were.  When it passes, [add] returns the new task; the collection
    holds it behind the tasks it had, in their order, and has been
    persisted: the store and the listeners are as [save()] leaves them
    for the longer collection. *)
Theorem add_validates_then_appends (todoData : Todo.fields) (st : TodoList.state) :
  ∃ todo w1 st',
    Todo.constructor todoData (TodoList.world st) = (Return todo, w1)
    ∧ if Todo.isValid (Todo.validate todo)
      then
        TodoList.add todoData st = (Return todo, st')
        ∧ TodoList.todos (TodoList.self st')
          = TodoList.todos (TodoList.self st) ++ [todo]
        ∧ st' = state_after TodoList.save
                  (TodoList.mk_state (appended (TodoList.self st) todo) w1
                     (TodoList.delivered st))
        ∧ localStorage (TodoList.world st')
          = store_after_persist (appended (TodoList.self st) todo) w1
      else
        TodoList.add todoData st
        = (Throw (Error (JS.join ", " (Todo.errors (Todo.validate todo)))), st')
        ∧ TodoList.self st' = TodoList.self st
        ∧ localStorage (TodoList.world st') = localStorage (TodoList.world st)
        ∧ TodoList.delivered st' = TodoList.delivered st.
Proof.
  destruct (constructor_returns todoData (TodoList.world st))
    as (todo & w1 & E & _ & _ & _ & Hstore).
  exists todo, w1.
  assert (TodoList.in_world (Todo.constructor todoData) st
          = (Return todo,
             TodoList.mk_state (TodoList.self st) w1 (TodoList.delivered st)))
    as Ein by (unfold TodoList.in_world; by rewrite E).
  unfold TodoList.add. rewrite (bind_returns _ _ _ _ _ Ein).
  destruct (Todo.isValid (Todo.validate todo)); cbn [negb].
  - destruct (save_returns
                (TodoList.mk_state (appended (TodoList.self st) todo) w1
                   (TodoList.delivered st))) as (st' & Esave & Hself & Hls & _).
    exists st'. split; [done|].
    split.
    { unfold mbind, M_bind, get, TodoList.set_todos, modify. simpl.
      unfold appended in Esave at 1. by rewrite Esave. }
    split; [by rewrite Hself|].
    split; [|done]. unfold state_after. by rewrite Esave.
  - eexists. split; [done|]. split; [reflexivity|]. simpl. by rewrite Hstore.
Qed.

Lemma validate_empty_title (todo : Todo.t) :
  Todo.title todo = "" →
  Todo.isValid (Todo.validate todo) = false
  ∧ Todo.title_required ∈ Todo.errors (Todo.validate todo).
Proof.
  intros Htitle. unfold Todo.validate. rewrite Htitle. simpl.
  destruct (negb _), (Todo.dueDate_is_invalid _); simpl;
    (split; [done|]); set_solver.
Qed.

(** C4.  When the collection holds a task with the id,
    [update(id, { title: "" })] throws the error of the validation and
    nothing is rolled back: the task found is in the array with the empty
    title, and [validate()] on it still reports the missing title; every
    other place of the array holds what it held; the store and the calls
    to the listeners are what they were. *)
Theorem update_empty_title_not_rolled_back
  (id : string) (st : TodoList.state) (i : nat) (todo : Todo.t) :
  TodoList.findById (TodoList.self st) id = Some (i, todo) →
  ∃ todo' st',
    TodoList.update id title_emptied st
    = (Throw (Error (JS.join ", " (Todo.errors (Todo.validate todo')))), st')
    ∧ todo' = Todo.set_updatedAt (Todo.assign todo title_emptied)
                (clock_iso (reads (TodoList.world st)))
    ∧ Todo.title todo' = ""
    ∧ TodoList.todos (TodoList.self st') !! i = Some todo'
    ∧ Todo.isValid (Todo.validate todo') = false
    ∧ Todo.title_required ∈ Todo.errors (Todo.validate todo')
    ∧ (∀ j, j ≠ i →
         TodoList.todos (TodoList.self st') !! j
         = TodoList.todos (TodoList.self st) !! j)
    ∧ length (TodoList.todos (TodoList.self st'))
      = length (TodoList.todos (TodoList.self st))
    ∧ localStorage (TodoList.world st') = localStorage (TodoList.world st)
    ∧ TodoList.delivered st' = TodoList.delivered st.
Proof.
  intros Hfind.
  pose proof Hfind as Hfound. unfold TodoList.findById in Hfound.
  apply list_find_Some in Hfound as (Hi & _ & _).
  set (todo' := Todo.set_updatedAt (Todo.assign todo title_emptied)
                  (clock_iso (reads (TodoList.world st)))).
  destruct (validate_empty_title todo' eq_refl) as [Hinvalid Hmissing].
  exists todo'. eexists. split.
  { unfold TodoList.update.
    unfold mbind at 1, M_bind at 1, get. rewrite Hfind.
    unfold TodoList.in_world, Todo.update, Date_toISOString_now, read_platform,
      TodoList.set_todos, modify, mbind, M_bind, mret, M_ret.
    cbn -[Todo.validate Todo.set_updatedAt Todo.assign].
    fold todo'. rewrite Hinvalid. reflexivity. }
  simpl. split; [done|]. split; [done|].
  split; [apply list_lookup_insert_eq; by eapply lookup_lt_Some|].
  split; [done|]. split; [done|].
  split; [intros j Hj; by apply list_lookup_insert_ne|].
  split; [apply length_insert|done].
Qed.

Lemma findById_None this id :
  TodoList.findById this id = None
  ↔ Forall (λ todo, Todo.id todo ≠ id) (TodoList.todos this).
Proof. unfold TodoList.findById. apply list_find_None. Qed.

(** C10.  [delete(id)] returns, and afterwards the collection holds the
    tasks whose id is another one, in their order, and no task with the
    id, however many it held before: [findById(id)] finds nothing.
    It returns [true] exactly when the collection held a task with the
    id. *)
Theorem delete_removes_every_match (id : string) (st : TodoList.state) :
  ∃ removed st',
    TodoList.delete id st = (Return removed, st')
    ∧ TodoList.todos (TodoList.self st')
      = List.filter (λ todo, negb (String.eqb (Todo.id todo) id))
          (TodoList.todos (TodoList.self st))
    ∧ Forall (λ todo, Todo.id todo ≠ id) (TodoList.todos (TodoList.self st'))
    ∧ TodoList.findById (TodoList.self st') id = None
    ∧ (removed = true
       ↔ ∃ todo, todo ∈ TodoList.todos (TodoList.self st) ∧ Todo.id todo = id).
Proof.
  set (kept := List.filter (λ todo, negb (String.eqb (Todo.id todo) id))
                 (TodoList.todos (TodoList.self st))).
  assert (Forall (λ todo, Todo.id todo ≠ id) kept) as Hkept.
  { apply Forall_forall. intros todo Hin.
    apply list_elem_of_In, filter_In in Hin as [_ Hne].
    apply negb_true_iff, String.eqb_neq in Hne. done. }
  assert (Nat.eqb (length kept) (length (TodoList.todos (TodoList.self st))) = false
          ↔ ∃ todo, todo ∈ TodoList.todos (TodoList.self st) ∧ Todo.id todo = id)
    as Hlen.
  { subst kept. clear Hkept.
    induction (TodoList.todos (TodoList.self st)) as [|todo l IH]; simpl.
    - split; [done|]. intros (todo & Hin & _). by apply elem_of_nil in Hin.
    - pose proof (filter_length_le
                    (λ todo, negb (String.eqb (Todo.id todo) id)) l) as Hle.
      destruct (String.eqb_spec (Todo.id todo) id) as [Heq|Hne]; simpl.
      + split; [|intros _; apply Nat.eqb_neq; lia].
        intros _. exists todo. split; [left|done].
      + rewrite IH. split.
        * intros (todo' & Hin & Hid). exists todo'. split; [by right|done].
        * intros (todo' & Hin & Hid). exists todo'. split; [|done].
          apply elem_of_cons in Hin as [->|Hin]; [done|done]. }
  unfold TodoList.delete, TodoList.set_todos, modify, get, mbind, M_bind.
  simpl. fold kept.
  destruct (Nat.eqb (length kept) (length (TodoList.todos (TodoList.self st))))
    eqn:Hsame; simpl.
  - do 2 eexists. split; [reflexivity|]. simpl.
    split; [done|]. split; [done|]. split; [by apply findById_None|].
    split; [done|]. intros Hex. apply Hlen in Hex. congruence.
  - destruct (save_returns
                (TodoList.mk_state
                   (TodoList.mk (TodoList.storageService (TodoList.self st)) kept
                      (TodoList.listeners (TodoList.self st)))
                   (TodoList.world st) (TodoList.delivered st)))
      as (st' & Esave & Hself & _).
    rewrite Esave. simpl. exists true, st'. split; [done|].
    rewrite Hself. simpl.
    split; [done|]. split; [done|]. split; [by apply findById_None|].
    split; [intros _; by apply Hlen|done].
Qed.

End CollectionProperties.

(** C4 at a collection of two tasks, for the id of the second. *)
Lemma update_empty_title_not_rolled_back_witness :
  ∃ todo' st',
    TodoList.update (H := Sample.platform) "2" title_emptied
      (Sample.collection
         [Sample.task "1" "high" false None; Sample.task "2" "low" false None])
    = (Throw (Error (JS.join ", "
                       (Todo.errors (Todo.validate (H := Sample.platform) todo')))),
       st')
    ∧ Todo.title todo' = ""
    ∧ TodoList.todos (TodoList.self st') !! 1%nat = Some todo'
    ∧ TodoList.todos (TodoList.self st') !! 0%nat
      = Some (Sample.task "1" "high" false None).
Proof.
  destruct (update_empty_title_not_rolled_back (H := Sample.platform) "2"
              (Sample.collection
                 [Sample.task "1" "high" false None;
                  Sample.task "2" "low" false None])
              1%nat (Sample.task "2" "low" false None))
    as (todo' & st' & E & _ & Htitle & Hat & _ & _ & Hothers & _).
  - vm_compute. reflexivity.
  - exists todo', st'. split; [exact E|]. split; [exact Htitle|].
    split; [exact Hat|]. by rewrite Hothers.
Defined.

(** ** Strings: occurrence and case *)

Lemma append_unit c (s t : string) : String c s +:+ t = String c (s +:+ t).
Proof. reflexivity. Qed.

Lemma append_empty (t : string) : "" +:+ t = t.
Proof. reflexivity. Qed.

Lemma prefix_append (p s : string) :
  String.prefix p s = true ↔ ∃ rest, s = p +:+ rest.
Proof.
  revert s. induction p as [|c p IH]; intros [|d s]; simpl.
  - split; [intros _; by exists ""|done].
  - split; [intros _; by exists (String d s)|done].
  - split; [done|by intros [rest ?]].
  - destruct (ascii_dec c d) as [->|Hne].
    + rewrite IH. split; intros [rest Hrest]; exists rest;
        rewrite append_unit in *; congruence.
    + split; [done|]. intros [rest Hrest]. rewrite append_unit in Hrest.
      congruence.
Qed.

Lemma includes_unit c (s sub : string) :
  JS.includes (String c s) sub
  = String.prefix sub (String c s) || JS.includes s sub.
Proof. reflexivity. Qed.

Lemma includes_append (s sub : string) :
  JS.includes s sub = true ↔ ∃ before after, s = before +:+ sub +:+ after.
Proof.
  induction s as [|c s IH].
  - change (JS.includes "" sub) with (String.prefix sub "" || false).
    rewrite orb_false_r, prefix_append. split.
    + intros [rest Hrest]. by exists "", rest.
    + intros (before & after & Heq). destruct before; [by exists after|done].
  - rewrite includes_unit, orb_true_iff, IH, prefix_append. split.
    + intros [[rest Hrest]|(before & after & Heq)].
      * by exists "", rest.
      * exists (String c before), after. by rewrite append_unit, Heq.
    + intros (before & after & Heq). destruct before as [|d before].
      * left. by exists after.
      * right. exists before, after. rewrite append_unit in Heq. congruence.
Qed.

Lemma toLowerCase_append (s t : string) :
  JS.toLowerCase (s +:+ t) = JS.toLowerCase s +:+ JS.toLowerCase t.
Proof.
  induction s as [|c s IH]; [done|].
  rewrite append_unit. simpl. by rewrite IH.
Qed.

Lemma toLowerCase_split (s x y : string) :
  JS.toLowerCase s = x +:+ y →
  ∃ a b, s = a +:+ b ∧ JS.toLowerCase a = x ∧ JS.toLowerCase b = y.
Proof.
  revert s. induction x as [|c x IH]; intros s Hs.
  - by exists "", s.
  - rewrite append_unit in Hs. destruct s as [|d s]; [done|]. simpl in Hs.
    injection Hs as Hc Hrest.
    destruct (IH s Hrest) as (a & b & -> & Ha & Hb).
    exists (String d a), b. simpl. by rewrite Hc, Ha.
Qed.

Lemma same_ignoring_case_lower (s t : string) :
  same_ignoring_case s t ↔ JS.toLowerCase s = JS.toLowerCase t.
Proof.
  split.
  - induction 1; simpl; congruence.
  - revert t. induction s as [|c s IH]; intros [|d t] Heq; simpl in Heq;
      try done; [constructor|].
    injection Heq as Hc Hrest. constructor; [done|by apply IH].
Qed.

(** What [filter] computes for the search is an occurrence up to case. *)
Lemma includes_lower_occurs (text needle : string) :
  JS.includes (JS.toLowerCase text) (JS.toLowerCase needle) = true
  ↔ occurs_ignoring_case needle text.
Proof.
  rewrite includes_append. unfold occurs_ignoring_case. split.
  - intros (before & after & Heq).
    apply toLowerCase_split in Heq as (a & rest & -> & Ha & Hrest).
    apply toLowerCase_split in Hrest as (found & b & -> & Hfound & Hb).
    exists a, found, b. split; [done|]. by apply same_ignoring_case_lower.
  - intros (before & found & after & -> & Hsame).
    apply same_ignoring_case_lower in Hsame.
    exists (JS.toLowerCase before), (JS.toLowerCase after).
    by rewrite !toLowerCase_append, Hsame.
Qed.

Lemma arr_includes_elem_of (arr : list string) (x : string) :
  JS.arr_includes arr x = true ↔ x ∈ arr.
Proof.
  unfold JS.arr_includes. rewrite existsb_exists. split.
  - intros (y & Hin & Heq). apply String.eqb_eq in Heq as ->.
    by apply list_elem_of_In.
  - intros Hin. exists x. split; [by apply list_elem_of_In|apply String.eqb_refl].
Qed.

Lemma given_supplied (f : option string) (s : string) :
  TodoList.given f = Some s ↔ supplied f s.
Proof.
  unfold TodoList.given, supplied. destruct f as [[|c r]|]; simpl.
  - split; [done|]. by intros [[= <-] ?].
  - split; [by intros [= <-]|]. by intros [[= <-] _].
  - split; [done|]. by intros [? _].
Qed.

Lemma is_string_eq (f : option string) (s : string) :
  TodoList.is_string f s = true ↔ f = Some s.
Proof.
  unfold TodoList.is_string. destruct f as [s'|]; [|done].
  rewrite String.eqb_eq. split; congruence.
Qed.

Lemma given_forall (f : option string) (P : string → Prop) :
  (∀ s, supplied f s → P s)
  ↔ match TodoList.given f with Some s => P s | None => True end.
Proof.
  destruct (TodoList.given f) as [s|] eqn:Hf.
  - apply given_supplied in Hf. split; [auto|].
    intros HP s' [Hs' _]. destruct Hf as [Hf _]. congruence.
  - split; [done|]. intros _ s Hs. apply given_supplied in Hs. congruence.
Qed.

Section FilterProperties.
Context `{Platform}.

(** The callback of [filter] keeps the tasks that match all supplied
    criteria, and only them. *)
Lemma keeps_satisfies c todo : TodoList.keeps c todo = true ↔ satisfies c todo.
Proof.
  unfold satisfies. rewrite !given_forall, <- !is_string_eq.
  unfold TodoList.keeps.
  destruct (TodoList.is_string (TodoList.status c) "active"),
    (TodoList.is_string (TodoList.status c) "completed"),
    (Todo.completed todo); simpl; try (split; [done|]; intuition congruence).
  all: destruct (TodoList.given (TodoList.priority c)) as [p|];
    [destruct (String.eqb_spec (Todo.priority todo) p); simpl;
     [|split; [done|]; intuition congruence]|].
  all: destruct (TodoList.given (TodoList.category c)) as [cat|];
    [destruct (JS.arr_includes (Todo.categories todo) cat) eqn:Hcat; simpl;
     [apply arr_includes_elem_of in Hcat
     |split; [done|];
      intros (_ & _ & _ & Hin%arr_includes_elem_of & _); congruence]|].
  all: destruct (TodoList.given (TodoList.tag c)) as [tg|];
    [destruct (JS.arr_includes (Todo.tags todo) tg) eqn:Htag; simpl;
     [apply arr_includes_elem_of in Htag
     |split; [done|];
      intros (_ & _ & _ & _ & Hin%arr_includes_elem_of & _); congruence]|].
  all: destruct (TodoList.given (TodoList.search c)) as [s|];
    [|by intuition].
  all: rewrite <- !includes_lower_occurs;
    destruct (JS.includes (JS.toLowerCase (Todo.title todo)) (JS.toLowerCase s)),
      (JS.includes (JS.toLowerCase (Todo.description todo)) (JS.toLowerCase s));
    simpl; intuition congruence.
Qed.

(** C6.  [filter(criteria)] returns the tasks of the collection that
    match all supplied criteria, in the order of the collection and as
    often as they are in it: the list is what filtering the collection
    by the conjunction gives, however the conjunction is decided.  A
    criterion is a status (active: not completed; completed: completed;
    anything else, such as all: no constraint), the exact priority, a
    category among the categories, a tag among the tags, and a search
    string that occurs in the title or in the description up to case.
    On five tasks of which the first, third and fifth are of high
    priority and not completed, [{ status: "active", priority: "high" }]
    gives these three in this order. *)
Theorem filter_conjunctive (this : TodoList.t) (c : TodoList.criteria) :
  TodoList.filter this c `sublist_of` TodoList.todos this
  ∧ (∀ todo, todo ∈ TodoList.filter this c
             ↔ todo ∈ TodoList.todos this ∧ satisfies c todo)
  ∧ (∀ decide_match : ∀ todo, Decision (satisfies c todo),
       TodoList.filter this c = filter (satisfies c) (TodoList.todos this))
  ∧ TodoList.filter (Sample.holding Sample.five_tasks) Sample.active_high
    = [Sample.task "1" "high" false None; Sample.task "3" "high" false None;
       Sample.task "5" "high" false None].
Proof.
  assert (∀ decide_match : ∀ todo, Decision (satisfies c todo),
            TodoList.filter this c = filter (satisfies c) (TodoList.todos this))
    as Hfilter.
  { intros decide_match. unfold TodoList.filter.
    induction (TodoList.todos this) as [|todo l IH]; [done|].
    rewrite filter_cons. simpl. rewrite IH.
    destruct (TodoList.keeps c todo) eqn:Hk, (decide (satisfies c todo)) as [Hs|Hs];
      try done.
    - by apply keeps_satisfies in Hk.
    - apply keeps_satisfies in Hs. congruence. }
  assert (∀ todo, Decision (satisfies c todo)) as decide_match.
  { intros todo. destruct (TodoList.keeps c todo) eqn:Hk.
    - left. by apply keeps_satisfies.
    - right. intros Hs%keeps_satisfies. congruence. }
  split; [rewrite (Hfilter decide_match); apply sublist_filter|].
  split; [|split; [exact Hfilter|reflexivity]].
  intros todo. rewrite (Hfilter decide_match), list_elem_of_filter. tauto.
Qed.

End FilterProperties.

(** ** The model at work on the sample platform *)

(** A store that holds text that is not JSON: [load()] logs the error and
    returns no record. *)
Example load_of_malformed_text :
  StorageService.load (H := Sample.platform) Sample.service
    (Sample.world_storing "{not json")
  = (Return [],
     mk_World {[ "todoApp" := "{not json" ]} 0
       [console_error "Failed to load from storage:" SyntaxError]).
Proof. reflexivity. Qed.

(** A store that holds an envelope of another version: [load()] logs the
    mismatch and returns the records. *)
Example load_of_old_envelope :
  (StorageService.load (H := Sample.platform) Sample.service
     (Sample.world_storing (Sample.stringify Sample.old_envelope))).1
  = Return [JS.JObj [("title", JS.JStr "a")]; JS.JNum 7].
Proof. vm_compute. reflexivity. Qed.

(** A store whose [todos] is no array. *)
Example load_of_other_shape :
  (StorageService.load (H := Sample.platform) Sample.service
     (Sample.world_storing
        (Sample.stringify (JS.JObj [("todos", JS.JStr "none")])))).1
  = Return [].
Proof. vm_compute. reflexivity. Qed.

(** [add] of a valid record, then [load()]: the store holds the task. *)
Example add_then_load :
  ((todo ← TodoList.add (H := Sample.platform) Sample.parsed_tags;
    records ← TodoList.in_world
                (StorageService.load (H := Sample.platform) Sample.service);
    mret (todo, records)) (Sample.collection [])).1
  = Return
      (Todo.mk "1714557600000-sample0" "x" "" false "medium" None []
         ["#work"; "#home"] "2024-05-01T10:00:01.000Z"
         "2024-05-01T10:00:02.000Z" None,
       [Todo.toJSON
          (Todo.mk "1714557600000-sample0" "x" "" false "medium" None []
             ["#work"; "#home"] "2024-05-01T10:00:01.000Z"
             "2024-05-01T10:00:02.000Z" None)]).
Proof. vm_compute. reflexivity. Qed.

(** [add] of a record without a title: the error, and nothing changed. *)
Example add_without_title :
  TodoList.add (H := Sample.platform) Sample.plain_tag (Sample.collection [])
  = (Throw (Error Todo.title_required),
     TodoList.mk_state (TodoList.mk Sample.service [] [7%nat])
       (mk_World ∅ 3 []) []).
Proof. vm_compute. reflexivity. Qed.

(** [delete] of an id that two tasks share removes both. *)
Example delete_of_shared_id :
  TodoList.todos
    (TodoList.self
       (state_after (TodoList.delete (H := Sample.platform) "1")
          (Sample.collection
             [Sample.task "1" "high" false None; Sample.task "2" "low" false None;
              Sample.task "1" "low" true None])))
  = [Sample.task "2" "low" false None].
Proof. vm_compute. reflexivity. Qed.

(** ** More of the persistence adapter *)

Section MoreStorageProperties.
Context `{Platform}.

Lemma has_todos_array_truthy parsed :
  StorageService.has_todos_array parsed = true →
  JS.json_truthy parsed = true
  ∧ JS.typeof_object parsed = true
  ∧ ∃ items, JS.prop parsed "todos" = Some (JS.JArr items)
             ∧ StorageService.todos_of parsed = items.
Proof.
  unfold StorageService.has_todos_array, StorageService.todos_of.
  destruct parsed as [| | | | |props]; try done. simpl.
  destruct (JS.assoc "todos" props) as [[]|]; try done.
  intros _. repeat split. by eexists.
Qed.

(** X1.  [save(todos)] never throws.  It returns [true] exactly when the store
    takes the envelope, which then is the text under the key; when the
    store refuses (its quota), the text stored before stays, the error is
    logged and the user is shown the quota notice. *)
Theorem save_reports_what_the_store_did
  (this : StorageService.t) (records : list JS.json) (w : World) :
  let text := JSON_stringify
                (StorageService.envelope this records (clock_iso (reads w))) in
  let contents := <[StorageService.key this := text]> (localStorage w) in
  ∃ w',
    StorageService.save this records w = (Return (storage_accepts contents), w')
    ∧ if storage_accepts contents
      then localStorage w' = contents ∧ outputs w' = outputs w
      else localStorage w' = localStorage w
           ∧ outputs w'
             = outputs w
               ++ [console_error "Failed to save to storage:" QuotaExceededError;
                   alert StorageService.quota_notice].
Proof.
  intros text contents.
  unfold StorageService.save, try_catch, Date_toISOString_now, setItem, emit.
  unfold mbind, M_bind, read_platform, modify, mret, M_ret. simpl.
  fold text. fold contents.
  destruct (storage_accepts contents); simpl; eexists; (split; [reflexivity|]).
  - done.
  - simpl. by rewrite <- app_assoc.
Qed.

(** [load()] on a store that holds the text of an envelope of the version
    of the adapter: the records, and no diagnostic. *)
Lemma load_reads_back (this : StorageService.t) (records : list JS.json)
  (now text : string) (w : World) :
  localStorage w !! StorageService.key this = Some text →
  JSON_parse text = Some (StorageService.envelope this records now) →
  StorageService.load this w = (Return records, w).
Proof.
  intros Hstored Hcodec.
  unfold StorageService.load, try_catch, getItem.
  unfold mbind, M_bind, get, mret, M_ret. simpl.
  rewrite Hstored.
  destruct text as [|c text]; [by rewrite JSON_parse_empty in Hcodec|].
  simpl. unfold StorageService.parse. rewrite Hcodec. simpl.
  unfold StorageService.version_differs. simpl.
  by rewrite String.eqb_refl.
Qed.

(** X2.  [load()] after a [save(todos)] that returned [true] gives the records
    back, and logs nothing, on a platform whose [JSON.parse] reads the
    envelope back from the text [JSON.stringify] made of it. *)
Theorem save_then_load
  (this : StorageService.t) (records : list JS.json) (w w' : World) :
  let data := StorageService.envelope this records (clock_iso (reads w)) in
  JSON_parse (JSON_stringify data) = Some data →
  StorageService.save this records w = (Return true, w') →
  StorageService.load this w' = (Return records, w').
Proof.
  intros data Hcodec Hsave.
  assert (localStorage w' !! StorageService.key this
          = Some (JSON_stringify data)) as Hstored.
  { revert Hsave.
    unfold StorageService.save, try_catch, Date_toISOString_now, setItem, emit.
    unfold mbind, M_bind, read_platform, modify, mret, M_ret. simpl.
    fold data. destruct (storage_accepts _); simpl; [|done].
    intros [= <-]. simpl. apply lookup_insert_eq. }
  by apply load_reads_back with (clock_iso (reads w)) (JSON_stringify data).
Qed.

(** X3.  [import(jsonData)] never throws.  It takes the text exactly when the
    text parses to a value whose [todos] is an array and the store has
    room: the text is then stored as it is, and [true] returned.  In every
    other case it returns [false], leaves the store as it was and shows
    the import notice. *)
Theorem import_takes_envelopes_only
  (this : StorageService.t) (jsonData : string) (w : World) :
  let well_shaped :=
    match JSON_parse jsonData with
    | Some parsed => StorageService.has_todos_array parsed
    | None => false
    end in
  let contents := <[StorageService.key this := jsonData]> (localStorage w) in
  ∃ w',
    StorageService.import this jsonData w
    = (Return (well_shaped && storage_accepts contents), w')
    ∧ if well_shaped && storage_accepts contents
      then localStorage w' = contents ∧ outputs w' = outputs w
      else localStorage w' = localStorage w
           ∧ ∃ error,
               outputs w'
               = outputs w ++ [console_error "Failed to import data:" error;
                               alert StorageService.import_notice].
Proof.
  intros well_shaped contents. subst well_shaped.
  unfold StorageService.import, try_catch, StorageService.parse, setItem, emit.
  unfold mbind, M_bind, modify, throw, mret, M_ret.
  destruct (JSON_parse jsonData) as [parsed|]; simpl.
  - destruct (StorageService.has_todos_array parsed) eqn:Hshape; simpl.
    + destruct (has_todos_array_truthy parsed Hshape) as (-> & _). simpl.
      fold contents. destruct (storage_accepts contents); simpl;
        eexists; (split; [reflexivity|]); simpl; [done|].
      split; [done|]. eexists. by rewrite <- app_assoc.
    + rewrite orb_true_r. simpl. eexists. split; [reflexivity|]. simpl.
      split; [done|]. eexists. by rewrite <- app_assoc.
  - eexists. split; [reflexivity|]. simpl.
    split; [done|]. eexists. by rewrite <- app_assoc.
Qed.

(** X4.  After an [import(jsonData)] that returned [true], [export()] returns
    the very text, and [load()] the [todos] of what the text parses to. *)
Theorem import_then_export_and_load
  (this : StorageService.t) (jsonData : string) (w w' : World) :
  StorageService.import this jsonData w = (Return true, w') →
  StorageService.export this w' = (Return (Some jsonData), w')
  ∧ ∃ parsed w'',
      JSON_parse jsonData = Some parsed
      ∧ StorageService.load this w' = (Return (StorageService.todos_of parsed), w'')
      ∧ localStorage w'' = localStorage w'.
Proof.
  intros Himport.
  assert (∃ parsed,
            JSON_parse jsonData = Some parsed
            ∧ StorageService.has_todos_array parsed = true
            ∧ localStorage w' = <[StorageService.key this := jsonData]> (localStorage w))
    as (parsed & Hparsed & Hshape & Hstore).
  { revert Himport.
    unfold StorageService.import, try_catch, StorageService.parse, setItem, emit.
    unfold mbind, M_bind, modify, throw, mret, M_ret.
    destruct (JSON_parse jsonData) as [parsed|]; simpl; [|done].
    destruct (negb (JS.json_truthy parsed)
              || negb (StorageService.has_todos_array parsed)) eqn:Hbad;
      simpl; [done|].
    apply orb_false_iff in Hbad as [_ Hshape%negb_false_iff].
    destruct (storage_accepts _); simpl; [|done].
    intros [= <-]. by exists parsed. }
  destruct jsonData as [|c text]; [by rewrite JSON_parse_empty in Hparsed|].
  destruct (has_todos_array_truthy parsed Hshape)
    as (Htruthy & Hobject & items & Hitems & Htodos).
  split.
  - unfold StorageService.export, try_catch, getItem.
    unfold mbind, M_bind, get, mret, M_ret. simpl.
    by rewrite Hstore, lookup_insert_eq.
  - exists parsed.
    unfold StorageService.load, try_catch, getItem.
    unfold mbind, M_bind, get, mret, M_ret. simpl.
    rewrite Hstore, lookup_insert_eq. simpl.
    unfold StorageService.parse. rewrite Hparsed. simpl.
    rewrite Htruthy, Hobject. simpl.
    destruct (StorageService.version_differs this parsed); simpl;
      eexists; (split; [reflexivity|]); by rewrite Hstore.
Qed.

(** X5.  [clear()] returns [true] and removes the key and nothing else;
    afterwards [load()] returns no record, without a diagnostic, and
    [export()] returns [null]. *)
Theorem clear_forgets_the_envelope (this : StorageService.t) (w : World) :
  ∃ w',
    StorageService.clear this w = (Return true, w')
    ∧ localStorage w' !! StorageService.key this = None
    ∧ (∀ other, other ≠ StorageService.key this →
         localStorage w' !! other = localStorage w !! other)
    ∧ StorageService.load this w' = (Return [], w')
    ∧ StorageService.export this w' = (Return None, w').
Proof.
  eexists. split; [reflexivity|]. simpl.
  split; [apply lookup_delete_eq|].
  split; [intros other Hother; by apply lookup_delete_ne|].
  unfold StorageService.load, StorageService.export, try_catch, getItem.
  unfold mbind, M_bind, get, mret, M_ret. simpl.
  by rewrite lookup_delete_eq.
Qed.

(** X6.  [isAvailable()] never throws and returns whether the store takes the
    probe.  It leaves the probe key empty when it does and the store as it
    was when it does not; every other key keeps its text. *)
Theorem isAvailable_leaves_other_keys (this : StorageService.t) (w : World) :
  let probe := "__storage_test__" in
  let ok := storage_accepts (<[probe := probe]> (localStorage w)) in
  ∃ w',
    StorageService.isAvailable this w = (Return ok, w')
    ∧ localStorage w'
      = (if ok then delete probe (localStorage w) else localStorage w)
    ∧ ∀ other, other ≠ probe →
        localStorage w' !! other = localStorage w !! other.
Proof.
  intros probe ok. subst ok.
  unfold StorageService.isAvailable, try_catch, setItem, removeItem, emit.
  unfold mbind, M_bind, modify, mret, M_ret. simpl. fold probe.
  destruct (storage_accepts (<[probe := probe]> (localStorage w))); simpl;
    eexists; (split; [reflexivity|]); simpl.
  - rewrite delete_insert_eq. split; [done|].
    intros other Hother. by apply lookup_delete_ne.
  - done.
Qed.

End MoreStorageProperties.

(** ** More of the task entity *)

Lemma blank_unit c (s : string) :
  blank (String c s) ↔ JS.is_space c = true ∧ blank s.
Proof.
  unfold blank. simpl. split.
  - intros Hall. split; [apply Hall; left|]. intros d Hd. apply Hall. by right.
  - intros [Hc Hs] d [->|Hd]%elem_of_cons; auto.
Qed.

Lemma blank_empty : blank "".
Proof. intros c Hc. by apply elem_of_nil in Hc. Qed.

Lemma trimEnd_blank (s : string) : JS.trimEnd s = "" ↔ blank s.
Proof.
  induction s as [|c s IH]; simpl.
  - split; [intros _; apply blank_empty|done].
  - rewrite blank_unit, <- IH.
    destruct (JS.trimEnd s); [|split; [done|by intros [_ ?]]].
    destruct (JS.is_space c); [done|]. split; [done|by intros [? _]].
Qed.

Lemma trimStart_blank (s : string) : blank (JS.trimStart s) ↔ blank s.
Proof.
  induction s as [|c s IH]; simpl; [done|].
  destruct (JS.is_space c) eqn:Hc; [|done].
  rewrite blank_unit, IH. tauto.
Qed.

(** [trim()] leaves nothing exactly of the strings of white space. *)
Lemma trim_blank (s : string) : JS.trim s = "" ↔ blank s.
Proof. unfold JS.trim. by rewrite trimEnd_blank, trimStart_blank. Qed.

Section MoreEntityProperties.
Context `{Platform}.

Lemma title_rule (title : string) :
  negb (JS.truthy title) || String.eqb (JS.trim title) "" = true ↔ blank title.
Proof.
  rewrite <- trim_blank, orb_true_iff, String.eqb_eq, negb_true_iff.
  destruct title; simpl; [by intuition|]. by intuition.
Qed.

Lemma priority_rule (priority : string) :
  JS.arr_includes ["high"; "medium"; "low"] priority = true
  ↔ priority ∈ ["high"; "medium"; "low"].
Proof. apply arr_includes_elem_of. Qed.

(** A task that passes the rule of [validate()] on priorities has none of
    the inherited names as its priority. *)
Lemma enumerated_not_inherited (todo : Todo.t) :
  JS.arr_includes ["high"; "medium"; "low"] (Todo.priority todo) = true →
  not_inherited todo.
Proof.
  intros Hin%arr_includes_elem_of. unfold not_inherited.
  repeat (apply elem_of_cons in Hin as [->|Hin]; [reflexivity|]).
  by apply elem_of_nil in Hin.
Qed.

Lemma dueDate_rule (todo : Todo.t) :
  Todo.dueDate_is_invalid (Todo.dueDate todo) = true
  ↔ ∃ due, Todo.has_dueDate todo = Some due ∧ Date_getTime due = JS.NaN.
Proof.
  unfold Todo.dueDate_is_invalid, Todo.has_dueDate.
  destruct (Todo.dueDate todo) as [s|]; [|split; [done|by intros (? & ? & _)]].
  destruct (JS.truthy s); simpl; [|split; [done|by intros (? & ? & _)]].
  destruct (Date_getTime s) eqn:Hs; simpl.
  - split; [done|]. intros (due & [= <-] & Hdue). congruence.
  - split; [|done]. intros _. by exists s.
Qed.

(** X7.  [validate()] checks its four rules one by one and reports each that
    fails, in the order title required, title too long, priority, due date:
    the title is required when it is empty or white space only, too long
    above 200 code units, the priority must be one of the three names, a
    due date that is set must parse.  The task is valid exactly when no
    message is reported, which is when it meets all four rules. *)
Theorem validate_reports_each_broken_rule (todo : Todo.t) :
  let v := Todo.validate todo in
  (Todo.title_required ∈ Todo.errors v ↔ blank (Todo.title todo))
  ∧ (Todo.title_too_long ∈ Todo.errors v ↔ 200 < JS.length (Todo.title todo))
  ∧ (Todo.priority_invalid ∈ Todo.errors v
     ↔ Todo.priority todo ∉ ["high"; "medium"; "low"])
  ∧ (Todo.dueDate_invalid ∈ Todo.errors v
     ↔ ∃ due, Todo.has_dueDate todo = Some due ∧ Date_getTime due = JS.NaN)
  ∧ Todo.errors v
    `sublist_of` [Todo.title_required; Todo.title_too_long;
                  Todo.priority_invalid; Todo.dueDate_invalid]
  ∧ (Todo.isValid v = true ↔ Todo.errors v = [])
  ∧ (Todo.isValid v = true ↔ well_formed todo).
Proof.
  intros v. subst v. unfold well_formed.
  rewrite <- title_rule, <- priority_rule, <- dueDate_rule.
  assert ((∀ due, Todo.has_dueDate todo = Some due → Date_getTime due ≠ JS.NaN)
          ↔ Todo.dueDate_is_invalid (Todo.dueDate todo) = false) as ->.
  { rewrite <- not_true_iff_false, dueDate_rule. split.
    - intros Hall (due & Hdue & Hnan). by apply (Hall due).
    - intros Hno due Hdue Hnan. apply Hno. by exists due. }
  unfold Todo.validate.
  destruct (negb (JS.truthy (Todo.title todo))
            || String.eqb (JS.trim (Todo.title todo)) "") eqn:Htitle,
    (Z.ltb_spec 200 (JS.length (Todo.title todo))) as [Hlong|Hlong],
    (JS.arr_includes ["high"; "medium"; "low"] (Todo.priority todo)) eqn:Hprio,
    (Todo.dueDate_is_invalid (Todo.dueDate todo)) eqn:Hdue;
    cbn [negb app Todo.errors Todo.isValid List.length Nat.eqb];
    rewrite ?elem_of_cons, ?elem_of_nil;
    (repeat split; try done; try lia; try (intros; intuition (discriminate || lia)));
    try (repeat first [apply sublist_nil | apply sublist_skip; try done
                      | apply sublist_cons]).
Qed.

Lemma mapM_string_of_json (l : list string) :
  mapM Todo.string_of_json (JS.JStr <$> l) = Some l.
Proof.
  induction l as [|x l IH]; [done|].
  rewrite fmap_cons. cbn [mapM]. cbn [Todo.string_of_json mbind option_bind].
  by rewrite IH.
Qed.

(** The field record the constructor reads in [toJSON()] of a task: every
    field, as the task has it. *)
Lemma revive_toJSON (todo : Todo.t) :
  Todo.revive (Todo.toJSON todo) = Some (fields_of todo).
Proof.
  destruct todo as [id title description completed priority due categories tags
                      created updated done_at].
  unfold Todo.revive, Todo.toJSON, Todo.read_strings, fields_of. simpl.
  rewrite !mapM_string_of_json. by destruct due, done_at.
Qed.

Lemma constructor_fields_of (todo : Todo.t) (w : World) :
  Todo.constructor (fields_of todo) w = (Return todo, w) ↔ revivable todo.
Proof.
  destruct todo as [id title description completed priority due categories tags
                      created updated done_at].
  destruct w as [store n out]. unfold revivable, fields_of. simpl.
  destruct id as [|? ?], title as [|? ?], description as [|? ?],
    priority as [|? ?], created as [|? ?], updated as [|? ?],
    due as [[|? ?]|], done_at as [[|? ?]|];
    cbn; (split; [intros Heq; inversion Heq; repeat split; first [done | lia]
                 |intros (? & ? & ? & ? & ? & ?); done]).
Qed.

(** X8.  [new Todo(todo.toJSON())] gives the task back, without a read of the
    clock or a new id, exactly when none of the fields that the constructor
    defaults with [||] holds the empty string: an id, a priority, a
    creation or update time, a due date or a completion time that is empty
    is replaced. *)
Theorem constructor_of_toJSON (todo : Todo.t) (w : World) :
  ∃ data,
    Todo.revive (Todo.toJSON todo) = Some data
    ∧ (Todo.constructor data w = (Return todo, w) ↔ revivable todo).
Proof.
  exists (fields_of todo). split.
  - apply revive_toJSON.
  - apply constructor_fields_of.
Qed.

Lemma revive_all (todos : list Todo.t) :
  mapM Todo.revive (Todo.toJSON <$> todos) = Some (fields_of <$> todos).
Proof.
  induction todos as [|todo todos IH]; [done|].
  rewrite !fmap_cons. cbn [mapM]. rewrite revive_toJSON, IH. done.
Qed.

Lemma construct_all_fields_of (todos : list Todo.t) (w : World) :
  Forall revivable todos →
  Todo.construct_all (fields_of <$> todos) w = (Return todos, w).
Proof.
  induction 1 as [|todo todos Htodo _ IH]; [done|].
  rewrite fmap_cons. cbn [Todo.construct_all].
  apply constructor_fields_of with (w := w) in Htodo.
  by rewrite (bind_returns _ _ _ _ _ Htodo), (bind_returns _ _ _ _ _ IH).
Qed.

End MoreEntityProperties.

(** ** More of the task collection *)

Lemma state_eta (st : TodoList.state) :
  TodoList.mk_state
    (TodoList.mk (TodoList.storageService (TodoList.self st))
       (TodoList.todos (TodoList.self st)) (TodoList.listeners (TodoList.self st)))
    (TodoList.world st) (TodoList.delivered st) = st.
Proof. by destruct st as [[] ? ?]. Qed.

Lemma filter_other_ids_id (id : string) (l : list Todo.t) :
  Forall (λ todo, Todo.id todo ≠ id) l →
  List.filter (λ todo, negb (String.eqb (Todo.id todo) id)) l = l.
Proof.
  induction 1 as [|todo l Hne _ IH]; [done|]. simpl.
  apply String.eqb_neq in Hne. rewrite Hne. simpl. by rewrite IH.
Qed.

(** A place of the array that holds the first task with an id still does
    after a task with the same id has been written to it. *)
Lemma findById_insert (this : TodoList.t) (id : string) (i : nat) (todo todo' : Todo.t) :
  TodoList.findById this id = Some (i, todo) →
  Todo.id todo' = id →
  TodoList.findById
    (TodoList.mk (TodoList.storageService this) (<[i := todo']> (TodoList.todos this))
       (TodoList.listeners this)) id
  = Some (i, todo').
Proof.
  unfold TodoList.findById. simpl. intros Hfind Hid.
  apply list_find_Some in Hfind as (Hi & _ & Hfirst).
  apply list_find_Some. split; [|split; [done|]].
  - apply list_lookup_insert_eq. by eapply lookup_lt_Some.
  - intros j y Hj Hlt. rewrite list_lookup_insert_ne in Hj by lia. by eapply Hfirst.
Qed.

Section MoreCollectionProperties.
Context `{Platform}.

(** X9.  [update], [toggle] and [delete] with an id that no task of the
    collection has return [null] ([false] for [delete]) and change nothing:
    not the tasks, not the store, not the clock, and no listener is
    called. *)
Theorem missing_id_changes_nothing
  (id : string) (data : Todo.fields) (st : TodoList.state) :
  TodoList.findById (TodoList.self st) id = None →
  TodoList.update id data st = (Return None, st)
  ∧ TodoList.toggle id st = (Return None, st)
  ∧ TodoList.delete id st = (Return false, st).
Proof.
  intros Hfind. split; [|split].
  - unfold TodoList.update. unfold mbind, M_bind, get. by rewrite Hfind.
  - unfold TodoList.toggle. unfold mbind, M_bind, get. by rewrite Hfind.
  - apply findById_None in Hfind.
    unfold TodoList.delete, TodoList.set_todos, modify, get, mbind, M_bind.
    simpl. rewrite (filter_other_ids_id id _ Hfind), Nat.eqb_refl. simpl.
    by rewrite state_eta.
Qed.

(** X10.  [update(id, data)] on a task it finds.  The task stays at its place
    with its id and its creation time, whatever [data] holds for them, so
    that [findById(id)] finds the updated task afterwards; the other places
    are untouched.  When the updated task is valid the method returns it
    and the collection has been persisted; when it is not, the method
    throws the joined messages and the store is as it was. *)
Theorem update_keeps_the_identity
  (id : string) (data : Todo.fields) (st : TodoList.state) (i : nat) (todo : Todo.t) :
  TodoList.findById (TodoList.self st) id = Some (i, todo) →
  let todo' := Todo.set_updatedAt (Todo.assign todo data)
                 (clock_iso (reads (TodoList.world st))) in
  let v := Todo.validate todo' in
  ∃ st',
    TodoList.update id data st
    = (if Todo.isValid v then Return (Some todo')
       else Throw (Error (JS.join ", " (Todo.errors v))), st')
    ∧ Todo.id todo' = id
    ∧ Todo.createdAt todo' = Todo.createdAt todo
    ∧ TodoList.todos (TodoList.self st')
      = <[i := todo']> (TodoList.todos (TodoList.self st))
    ∧ TodoList.findById (TodoList.self st') id = Some (i, todo')
    ∧ localStorage (TodoList.world st')
      = (if Todo.isValid v
         then store_after_persist (TodoList.self st')
                (mk_World (localStorage (TodoList.world st))
                   (S (reads (TodoList.world st))) (outputs (TodoList.world st)))
         else localStorage (TodoList.world st)).
Proof.
  intros Hfind todo' v.
  assert (Todo.id todo' = id) as Hid.
  { unfold TodoList.findById in Hfind.
    by apply list_find_Some in Hfind as (_ & Hid & _). }
  set (this' := TodoList.mk (TodoList.storageService (TodoList.self st))
                  (<[i := todo']> (TodoList.todos (TodoList.self st)))
                  (TodoList.listeners (TodoList.self st))).
  set (w1 := mk_World (localStorage (TodoList.world st))
               (S (reads (TodoList.world st))) (outputs (TodoList.world st))).
  assert (TodoList.findById this' id = Some (i, todo')) as Hfound
    by (by apply findById_insert with todo).
  destruct (save_returns (TodoList.mk_state this' w1 (TodoList.delivered st)))
    as (st1 & Esave & Hself & Hstore & _).
  unfold TodoList.update. unfold mbind at 1, M_bind at 1, get. rewrite Hfind.
  unfold TodoList.in_world, Todo.update, Date_toISOString_now, read_platform,
    TodoList.set_todos, modify, mbind, M_bind, mret, M_ret.
  cbn -[Todo.validate Todo.set_updatedAt Todo.assign TodoList.save].
  fold todo' v.
  destruct (Todo.isValid v); cbn [negb].
  - fold this' w1. rewrite Esave. exists st1.
    split; [done|]. rewrite Hself. simpl. by rewrite Hstore.
  - eexists. split; [unfold throw; reflexivity|]. by simpl.
Qed.

(** X11.  [toggle(id)] on a task it finds returns the task with [completed]
    flipped and [completedAt] set to the time of the call or cleared with
    it; the other fields but [updatedAt] are as they were, the task
    is at its place and the other places are untouched; the collection has
    been persisted. *)
Theorem toggle_flips_the_first_match
  (id : string) (st : TodoList.state) (i : nat) (todo : Todo.t) :
  TodoList.findById (TodoList.self st) id = Some (i, todo) →
  ∃ todo' st',
    TodoList.toggle id st = (Return (Some todo'), st')
    ∧ Todo.completed todo' = negb (Todo.completed todo)
    ∧ completion_invariant todo'
    ∧ todo'
      = Todo.mk (Todo.id todo) (Todo.title todo) (Todo.description todo)
          (negb (Todo.completed todo)) (Todo.priority todo) (Todo.dueDate todo)
          (Todo.categories todo) (Todo.tags todo) (Todo.createdAt todo)
          (Todo.updatedAt todo') (Todo.completedAt todo')
    ∧ TodoList.todos (TodoList.self st')
      = <[i := todo']> (TodoList.todos (TodoList.self st))
    ∧ TodoList.findById (TodoList.self st') id = Some (i, todo')
    ∧ ∃ w1, localStorage w1 = localStorage (TodoList.world st)
            ∧ localStorage (TodoList.world st')
              = store_after_persist (TodoList.self st') w1.
Proof.
  intros Hfind.
  assert (Todo.id todo = id) as Hid.
  { unfold TodoList.findById in Hfind.
    by apply list_find_Some in Hfind as (_ & Hid & _). }
  destruct (toggleComplete_returns todo (TodoList.world st))
    as (todo' & w1 & E & Hc & Hat & Hreads).
  assert (todo' = Todo.mk (Todo.id todo) (Todo.title todo) (Todo.description todo)
                    (negb (Todo.completed todo)) (Todo.priority todo)
                    (Todo.dueDate todo) (Todo.categories todo) (Todo.tags todo)
                    (Todo.createdAt todo) (Todo.updatedAt todo')
                    (Todo.completedAt todo')
          ∧ localStorage w1 = localStorage (TodoList.world st)) as [Hshape Hls].
  { revert E. unfold Todo.toggleComplete, Date_toISOString_now, read_platform.
    unfold mbind, M_bind, mret, M_ret.
    destruct (Todo.completed todo); simpl; by intros [= <- <-]. }
  set (this' := TodoList.mk (TodoList.storageService (TodoList.self st))
                  (<[i := todo']> (TodoList.todos (TodoList.self st)))
                  (TodoList.listeners (TodoList.self st))).
  assert (TodoList.findById this' id = Some (i, todo')) as Hfound.
  { apply findById_insert with todo; [done|]. rewrite Hshape. by simpl. }
  destruct (save_returns (TodoList.mk_state this' w1 (TodoList.delivered st)))
    as (st1 & Esave & Hself & Hstore & _).
  exists todo', st1. split.
  { unfold TodoList.toggle. unfold mbind at 1, M_bind at 1, get. rewrite Hfind.
    unfold TodoList.in_world, TodoList.set_todos, modify, mbind, M_bind.
    cbn -[TodoList.save Todo.toggleComplete]. rewrite E.
    cbn -[TodoList.save]. fold this'. by rewrite Esave. }
  split; [done|]. split.
  { unfold completion_invariant. rewrite Hc, Hat. by destruct (Todo.completed todo). }
  split; [exact Hshape|].
  rewrite Hself. simpl. split; [done|]. split; [done|].
  exists w1. split; [done|]. by rewrite Hstore.
Qed.

(** X12.  [add] does not look at the ids the collection holds.  After an [add]
    that returned, [findById] with the id of the new task finds the new
    task at the end of the array when no task had the id, and still the
    first task that had it when one did. *)
Theorem add_then_findById
  (todoData : Todo.fields) (st st' : TodoList.state) (todo : Todo.t) :
  TodoList.add todoData st = (Return todo, st') →
  TodoList.findById (TodoList.self st') (Todo.id todo)
  = match TodoList.findById (TodoList.self st) (Todo.id todo) with
    | Some found => Some found
    | None => Some (length (TodoList.todos (TodoList.self st)), todo)
    end.
Proof.
  intros Hadd.
  assert (TodoList.todos (TodoList.self st')
          = TodoList.todos (TodoList.self st) ++ [todo]) as Htodos.
  { destruct (constructor_returns todoData (TodoList.world st))
      as (todo0 & w1 & E & _).
    assert (TodoList.in_world (Todo.constructor todoData) st
            = (Return todo0,
               TodoList.mk_state (TodoList.self st) w1 (TodoList.delivered st)))
      as Ein by (unfold TodoList.in_world; by rewrite E).
    revert Hadd. unfold TodoList.add. rewrite (bind_returns _ _ _ _ _ Ein).
    destruct (Todo.isValid (Todo.validate todo0)); cbn [negb]; [|done].
    destruct (save_returns
                (TodoList.mk_state (appended (TodoList.self st) todo0) w1
                   (TodoList.delivered st))) as (st1 & Esave & Hself & _).
    unfold mbind, M_bind, get, TodoList.set_todos, modify. simpl.
    unfold appended in Esave at 1. rewrite Esave. simpl.
    intros [= <- <-]. by rewrite Hself. }
  unfold TodoList.findById. rewrite Htodos.
  destruct (list_find (λ t, Todo.id t = Todo.id todo)
              (TodoList.todos (TodoList.self st))) as [[j found]|] eqn:Hold.
  - by apply list_find_app_l.
  - rewrite list_find_app_r by done. simpl.
    by rewrite decide_True.
Qed.

End MoreCollectionProperties.

(** ** Listeners *)

Section ListenerProperties.
Context `{Platform}.

(** X13.  Listeners are called in the order of their subscriptions, once per
    subscription: after [subscribe(listener)], [notify()] calls the
    listeners it called before and then [listener], each with the array of
    the tasks.  [unsubscribe(listener)] drops every subscription of the
    listener and keeps the others in their order; after it, [notify()]
    does not call the listener. *)
Theorem listeners_in_subscription_order (listener : nat) (st : TodoList.state) :
  (∃ st1 st2,
     TodoList.subscribe listener st = (Return (), st1)
     ∧ TodoList.notify st1 = (Return (), st2)
     ∧ TodoList.delivered st2
       = TodoList.delivered st ++ calls_of (TodoList.self st)
         ++ [(listener, TodoList.todos (TodoList.self st))])
  ∧ (∃ st1 st2,
       TodoList.unsubscribe listener st = (Return (), st1)
       ∧ TodoList.listeners (TodoList.self st1)
         = filter (λ l, l ≠ listener) (TodoList.listeners (TodoList.self st))
       ∧ TodoList.todos (TodoList.self st1) = TodoList.todos (TodoList.self st)
       ∧ TodoList.notify st1 = (Return (), st2)
       ∧ TodoList.delivered st2
         = TodoList.delivered st
           ++ filter (λ call, call.1 ≠ listener) (calls_of (TodoList.self st))).
Proof.
  split.
  - do 2 eexists. split; [reflexivity|]. split; [reflexivity|]. simpl.
    unfold calls_of. by rewrite fmap_app.
  - assert (List.filter (λ l, negb (Nat.eqb l listener))
              (TodoList.listeners (TodoList.self st))
            = filter (λ l, l ≠ listener) (TodoList.listeners (TodoList.self st)))
      as Hfilter.
    { induction (TodoList.listeners (TodoList.self st)) as [|l ls IH]; [done|].
      rewrite filter_cons. simpl. rewrite IH.
      destruct (Nat.eqb_spec l listener) as [->|Hne]; simpl.
      - by rewrite decide_False by (intros ?; done).
      - by rewrite decide_True. }
    do 2 eexists. split; [reflexivity|]. simpl.
    split; [exact Hfilter|]. split; [done|]. split; [reflexivity|]. simpl.
    f_equal. rewrite Hfilter. unfold calls_of.
    generalize (TodoList.todos (TodoList.self st)) as tasks.
    intros tasks. clear Hfilter.
    induction (TodoList.listeners (TodoList.self st)) as [|l ls IH]; [done|].
    rewrite fmap_cons, !filter_cons. cbn [fst].
    destruct (decide (l ≠ listener)); [rewrite fmap_cons|]; by rewrite IH.
Qed.

End ListenerProperties.

(** ** Statistics *)

Lemma filter_length_split {A} (f : A → bool) (l : list A) :
  (length (List.filter f l) + length (List.filter (λ x, negb (f x)) l))%nat
  = length l.
Proof.
  induction l as [|x l IH]; [done|]. simpl.
  destruct (f x); simpl; lia.
Qed.

Section StatsProperties.
Context `{Platform} `{Calendar}.

(** A filter whose callback only reads the clock returns some of the
    elements, in their order, and among them only elements for which the
    callback can answer [true]. *)
Lemma filter_by_sublist {A} (p : A → M World bool) (q : A → bool) (l : list A) :
  (∀ x w, ∃ b w', p x w = (Return b, w')
                  ∧ localStorage w' = localStorage w ∧ outputs w' = outputs w
                  ∧ (b = true → q x = true)) →
  ∀ w, ∃ l' w',
    TodoList.filter_by p l w = (Return l', w')
    ∧ l' `sublist_of` List.filter q l
    ∧ localStorage w' = localStorage w ∧ outputs w' = outputs w.
Proof.
  intros Hp. induction l as [|x l IH]; intros w.
  - exists [], w. by repeat split.
  - destruct (Hp x w) as (b & w1 & Ex & Hls1 & Hout1 & Hq).
    destruct (IH w1) as (l' & w2 & El & Hsub & Hls2 & Hout2).
    exists (if b then x :: l' else l'), w2. split.
    { simpl. rewrite (bind_returns _ _ _ _ _ Ex), (bind_returns _ _ _ _ _ El).
      reflexivity. }
    split; [|split; congruence].
    simpl. destruct b.
    + rewrite Hq by done. by apply sublist_skip.
    + destruct (q x); [by apply sublist_cons|done].
Qed.

Lemma isOverdue_reads_only (todo : Todo.t) (w : World) :
  ∃ b w', Todo.isOverdue todo w = (Return b, w')
          ∧ localStorage w' = localStorage w ∧ outputs w' = outputs w
          ∧ (b = true → negb (Todo.completed todo) = true).
Proof.
  unfold Todo.isOverdue.
  destruct (Todo.has_dueDate todo); [|by exists false, w].
  destruct (Todo.completed todo); [by exists false, w|].
  do 2 eexists. split; [reflexivity|]. done.
Qed.

Lemma isDueToday_reads_only (todo : Todo.t) (w : World) :
  ∃ b w', Todo.isDueToday todo w = (Return b, w')
          ∧ localStorage w' = localStorage w ∧ outputs w' = outputs w
          ∧ (b = true → true = true).
Proof.
  unfold Todo.isDueToday.
  destruct (Todo.has_dueDate todo); [|by exists false, w].
  do 2 eexists. split; [reflexivity|]. done.
Qed.

Lemma filter_only_status (this : TodoList.t) :
  TodoList.filter this (only_status "completed")
  = List.filter Todo.completed (TodoList.todos this)
  ∧ TodoList.filter this (only_status "active")
    = List.filter (λ todo, negb (Todo.completed todo)) (TodoList.todos this).
Proof.
  unfold TodoList.filter.
  split; apply filter_ext; intros todo; unfold TodoList.keeps; simpl;
    by destruct (Todo.completed todo).
Qed.

(** X14.  [getStats()] returns and changes neither the collection nor the store
    nor what the listeners got.  [total] is the number of tasks,
    [completed] and [active] are the numbers of tasks that
    [filter({ status: "completed" })] and [filter({ status: "active" })]
    return, and they add up to [total]; [overdue] counts active tasks
    only, so it is at most [active]; [dueToday] is at most [total]. *)
Theorem getStats_counts (st : TodoList.state) :
  ∃ s st',
    TodoList.getStats st = (Return s, st')
    ∧ TodoList.self st' = TodoList.self st
    ∧ localStorage (TodoList.world st') = localStorage (TodoList.world st)
    ∧ outputs (TodoList.world st') = outputs (TodoList.world st)
    ∧ TodoList.delivered st' = TodoList.delivered st
    ∧ TodoList.total s = Z.of_nat (length (TodoList.todos (TodoList.self st)))
    ∧ TodoList.completed s
      = Z.of_nat (length (TodoList.filter (TodoList.self st)
                            (only_status "completed")))
    ∧ TodoList.active s
      = Z.of_nat (length (TodoList.filter (TodoList.self st)
                            (only_status "active")))
    ∧ TodoList.total s = TodoList.completed s + TodoList.active s
    ∧ 0 <= TodoList.overdue s <= TodoList.active s
    ∧ 0 <= TodoList.dueToday s <= TodoList.total s.
Proof.
  destruct (filter_by_sublist Todo.isOverdue (λ todo, negb (Todo.completed todo))
              (TodoList.todos (TodoList.self st)) isOverdue_reads_only
              (TodoList.world st)) as (late & w1 & E1 & Hlate & Hls1 & Hout1).
  destruct (filter_by_sublist Todo.isDueToday (λ _, true)
              (TodoList.todos (TodoList.self st)) isDueToday_reads_only w1)
    as (today & w2 & E2 & Htoday & Hls2 & Hout2).
  apply sublist_length in Hlate, Htoday.
  pose proof (filter_length_split Todo.completed (TodoList.todos (TodoList.self st)))
    as Hsplit.
  pose proof (filter_length_le (λ _ : Todo.t, true) (TodoList.todos (TodoList.self st)))
    as Hall.
  destruct (filter_only_status (TodoList.self st)) as [-> ->].
  do 2 eexists. split.
  { unfold TodoList.getStats, TodoList.in_world.
    unfold mbind, M_bind, get, mret, M_ret.
    cbn -[TodoList.filter_by Z.of_nat]. rewrite E1.
    cbn -[TodoList.filter_by Z.of_nat]. rewrite E2. reflexivity. }
  cbn -[Z.of_nat]. repeat split; try done; try congruence; lia.
Qed.

End StatsProperties.

(** ** The order of strings, and sorting by an order *)

Lemma str_compare_trans (a b c : string) :
  String.compare a b = Lt → String.compare b c = Lt → String.compare a c = Lt.
Proof.
  revert b c. induction a as [|x a IH]; intros [|y b] [|z c]; simpl; try done.
  unfold Ascii.compare.
  destruct (N.compare_spec (N_of_ascii x) (N_of_ascii y)) as [Hxy|Hxy|Hxy];
    destruct (N.compare_spec (N_of_ascii y) (N_of_ascii z)) as [Hyz|Hyz|Hyz];
    destruct (N.compare_spec (N_of_ascii x) (N_of_ascii z)) as [Hxz|Hxz|Hxz];
    try done; try lia.
  apply IH.
Qed.

Lemma str_lt_trans (a b c : string) :
  JS.str_lt a b = true → JS.str_lt b c = true → JS.str_lt a c = true.
Proof.
  unfold JS.str_lt, String.ltb. intros Hab Hbc.
  destruct (String.compare a b) eqn:Eab; try done.
  destruct (String.compare b c) eqn:Ebc; try done.
  by rewrite (str_compare_trans a b c).
Qed.

Lemma str_lt_asym (a b : string) : JS.str_lt a b = true → JS.str_lt b a = false.
Proof.
  unfold JS.str_lt, String.ltb. rewrite (String.compare_antisym b a).
  by destruct (String.compare a b).
Qed.

Lemma str_lt_total (a b : string) :
  a ≠ b → JS.str_lt a b = true ∨ JS.str_lt b a = true.
Proof.
  unfold JS.str_lt, String.ltb. intros Hne.
  rewrite (String.compare_antisym b a).
  destruct (String.compare a b) eqn:Eab; simpl; auto.
  by apply String.compare_eq_iff in Eab.
Qed.

Section SortByOrder.
Context {A : Type} (cmp : A → A → Z) (le : A → A → Prop).

(** The comparator decides a total order. *)
Hypothesis cmp_le : ∀ a b, cmp a b <= 0 ↔ le a b.
Hypothesis le_total : ∀ a b, le a b ∨ le b a.
Hypothesis le_trans : ∀ a b c, le a b → le b c → le a c.

Lemma sort_insert_ordered x l :
  StronglySorted le l → StronglySorted le (JS.sort_insert cmp x l).
Proof.
  induction 1 as [|y l Hl IH Hy]; simpl.
  - repeat constructor.
  - destruct (cmp x y <=? 0) eqn:Hc.
    + apply Z.leb_le, cmp_le in Hc.
      constructor; [by constructor|].
      constructor; [done|].
      eapply Forall_impl; [exact Hy|]. intros z Hyz. by eapply le_trans.
    + apply Z.leb_gt in Hc.
      assert (le y x) as Hyx.
      { destruct (le_total x y) as [Hle|Hle]; [|done].
        apply cmp_le in Hle. lia. }
      constructor; [done|].
      rewrite sort_insert_perm. by constructor.
Qed.

Lemma Array_sort_ordered l : StronglySorted le (JS.Array_sort cmp l).
Proof.
  induction l as [|x l IH]; simpl; [constructor|].
  by apply sort_insert_ordered.
Qed.

End SortByOrder.

(** ** Categories and tags of a collection *)

Lemma elem_of_Set_add (set : list string) (x y : string) :
  y ∈ TodoList.Set_add set x ↔ y ∈ set ∨ y = x.
Proof.
  unfold TodoList.Set_add. case_bool_decide as Hin.
  - split; [auto|]. by intros [?| ->].
  - rewrite elem_of_app, list_elem_of_singleton. tauto.
Qed.

Lemma NoDup_Set_add (set : list string) (x : string) :
  NoDup set → NoDup (TodoList.Set_add set x).
Proof.
  intros Hset. unfold TodoList.Set_add. case_bool_decide as Hin; [done|].
  apply NoDup_app. split; [done|]. split; [|apply NoDup_singleton].
  intros y Hy ->%list_elem_of_singleton. done.
Qed.

Lemma foldl_Set_add (l set : list string) :
  (NoDup set → NoDup (foldl TodoList.Set_add set l))
  ∧ ∀ y, y ∈ foldl TodoList.Set_add set l ↔ y ∈ set ∨ y ∈ l.
Proof.
  revert set. induction l as [|x l IH]; intros set; simpl.
  - split; [done|]. intros y. rewrite elem_of_nil. tauto.
  - destruct (IH (TodoList.Set_add set x)) as [Hnodup Hin]. split.
    + intros Hset. by apply Hnodup, NoDup_Set_add.
    + intros y. rewrite Hin, elem_of_Set_add, elem_of_cons. tauto.
Qed.

(** The set that the two loops of [getAllCategories] and [getAllTags]
    build. *)
Lemma collected_strings (f : Todo.t → list string) (l : list Todo.t) (set : list string) :
  (NoDup set → NoDup (foldl (λ set todo, foldl TodoList.Set_add set (f todo)) set l))
  ∧ ∀ y, y ∈ foldl (λ set todo, foldl TodoList.Set_add set (f todo)) set l
         ↔ y ∈ set ∨ ∃ todo, todo ∈ l ∧ y ∈ f todo.
Proof.
  revert set. induction l as [|todo l IH]; intros set; simpl.
  - split; [done|]. intros y. split; [auto|].
    intros [?|(todo & Hin & _)]; [done|]. by apply elem_of_nil in Hin.
  - destruct (IH (foldl TodoList.Set_add set (f todo))) as [Hnodup Hin].
    destruct (foldl_Set_add (f todo) set) as [Hnodup1 Hin1]. split.
    + intros Hset. by apply Hnodup, Hnodup1.
    + intros y. rewrite Hin, Hin1. split.
      * intros [[?|Hy]|(todo' & Htodo' & Hy)]; [by left| |].
        -- right. exists todo. split; [left|done].
        -- right. exists todo'. split; [by right|done].
      * intros [?|(todo' & Htodo' & Hy)]; [by left; left|].
        apply elem_of_cons in Htodo' as [->|Htodo'].
        -- left. by right.
        -- right. by exists todo'.
Qed.

Lemma default_compare_order (a b : string) :
  TodoList.default_compare a b <= 0 ↔ JS.str_lt b a = false.
Proof.
  unfold TodoList.default_compare.
  destruct (JS.str_lt a b) eqn:Hab.
  - apply str_lt_asym in Hab. rewrite Hab. split; [done|lia].
  - destruct (JS.str_lt b a); split; (done || lia).
Qed.

(** The default sort of an array of distinct strings leaves it in the
    strict lexical order. *)
Lemma default_sort_strict (l : list string) :
  NoDup l →
  StronglySorted str_before (JS.Array_sort TodoList.default_compare l)
  ∧ ∀ y, y ∈ JS.Array_sort TodoList.default_compare l ↔ y ∈ l.
Proof.
  intros Hnodup.
  pose proof (Array_sort_perm TodoList.default_compare l) as Hperm.
  split; [|intros y; by rewrite Hperm].
  rewrite <- Hperm in Hnodup.
  pose proof (Array_sort_ordered TodoList.default_compare
                (λ a b, JS.str_lt b a = false) default_compare_order) as Hsorted.
  specialize (Hsorted
    (λ a b, match JS.str_lt b a as r return JS.str_lt b a = r → _ with
            | true => λ Hba, or_intror (str_lt_asym b a Hba)
            | false => λ Hba, or_introl Hba
            end eq_refl)).
  assert (∀ a b c : string,
            JS.str_lt b a = false → JS.str_lt c b = false → JS.str_lt c a = false)
    as Htrans.
  { intros a b c Hba Hcb. destruct (JS.str_lt c a) eqn:Hca; [|done].
    destruct (decide (a = b)) as [->|Hne]; [congruence|].
    destruct (str_lt_total a b Hne) as [Hab|Hab]; [|congruence].
    by rewrite (str_lt_trans c a b) in Hcb. }
  specialize (Hsorted Htrans l). clear Hperm.
  revert Hnodup Hsorted.
  generalize (JS.Array_sort TodoList.default_compare l) as r.
  intros r Hnodup Hsorted.
  induction Hsorted as [|a r Hr IH Ha]; [constructor|].
  apply NoDup_cons in Hnodup as [Hnotin Hnodup].
  constructor; [by apply IH|].
  rewrite Forall_forall in Ha. apply Forall_forall. intros b Hb.
  unfold str_before. destruct (decide (a = b)) as [->|Hne]; [done|].
  destruct (str_lt_total a b Hne) as [Hab|Hba]; [done|].
  by rewrite (Ha b Hb) in Hba.
Qed.

(** X15.  [getAllCategories()] and [getAllTags()] return the categories, and the
    tags, that some task of the collection has, each once, in the strict
    lexical order of their code units. *)
Theorem getAll_sorted_without_duplicates (this : TodoList.t) :
  (StronglySorted str_before (TodoList.getAllCategories this)
   ∧ NoDup (TodoList.getAllCategories this)
   ∧ ∀ c, c ∈ TodoList.getAllCategories this
          ↔ ∃ todo, todo ∈ TodoList.todos this ∧ c ∈ Todo.categories todo)
  ∧ (StronglySorted str_before (TodoList.getAllTags this)
     ∧ NoDup (TodoList.getAllTags this)
     ∧ ∀ tg, tg ∈ TodoList.getAllTags this
             ↔ ∃ todo, todo ∈ TodoList.todos this ∧ tg ∈ Todo.tags todo).
Proof.
  unfold TodoList.getAllCategories, TodoList.getAllTags.
  split.
  - destruct (collected_strings Todo.categories (TodoList.todos this) [])
      as [Hnodup Hin]. specialize (Hnodup NoDup_nil_2).
    destruct (default_sort_strict _ Hnodup) as [Hsorted Hsame].
    split; [done|]. split.
    + by rewrite (Array_sort_perm TodoList.default_compare).
    + intros c. rewrite Hsame, Hin, elem_of_nil. tauto.
  - destruct (collected_strings Todo.tags (TodoList.todos this) [])
      as [Hnodup Hin]. specialize (Hnodup NoDup_nil_2).
    destruct (default_sort_strict _ Hnodup) as [Hsorted Hsame].
    split; [done|]. split.
    + by rewrite (Array_sort_perm TodoList.default_compare).
    + intros tg. rewrite Hsame, Hin, elem_of_nil. tauto.
Qed.

(** ** More of [sort], and the order of the list shown *)

Lemma Array_sort_all_equal {A} (cmp : A → A → Z) (l : list A) :
  (∀ a b, cmp a b <= 0) → JS.Array_sort cmp l = l.
Proof.
  intros Hcmp. induction l as [|x l IH]; [done|]. simpl. rewrite IH.
  destruct l as [|y l]; [done|]. simpl.
  by rewrite (proj2 (Z.leb_le _ _) (Hcmp x y)).
Qed.

Lemma get_field_unknown (todo : Todo.t) (field : string) :
  field ∉ field_names → TodoList.get_field todo field = TodoList.VUndefined.
Proof.
  intros Hfield. unfold TodoList.get_field.
  repeat match goal with
  | |- context [String.eqb field ?name] =>
      destruct (String.eqb_spec field name) as [->|?];
      [exfalso; apply Hfield; unfold field_names;
       repeat first [by left | right]|]
  end.
  done.
Qed.

Section MoreSortProperties.
Context `{Platform}.

(** X16.  [sort] returns the tasks of the collection, each as often as the
    collection holds it, for every field name and every order.  For a
    field name that is none of the data fields all tasks compare as equal
    and the result is the collection in its own order. *)
Theorem sort_keeps_the_tasks (this : TodoList.t) (field order : option string) :
  TodoList.sort this field order ≡ₚ TodoList.todos this
  ∧ (default "createdAt" field ∉ field_names →
     TodoList.sort this field order = TodoList.todos this).
Proof.
  split; [apply Array_sort_perm|].
  intros Hfield. unfold TodoList.sort. apply Array_sort_all_equal.
  intros a b. unfold TodoList.compare.
  rewrite !get_field_unknown by done.
  destruct (String.eqb_spec (default "createdAt" field) "priority") as [Heq|_].
  { exfalso. apply Hfield. rewrite Heq. unfold field_names.
    repeat first [by left | right]. }
  by destruct (JS.includes _ "At" || String.eqb _ "dueDate").
Qed.

Lemma shown_before_total (a b : Todo.t) : shown_before a b ∨ shown_before b a.
Proof.
  unfold shown_before.
  destruct (Todo.completed a), (Todo.completed b);
    destruct (Z.le_ge_cases (created_ms a) (created_ms b)); intuition.
Qed.

Lemma shown_before_trans (a b c : Todo.t) :
  shown_before a b → shown_before b c → shown_before a c.
Proof.
  unfold shown_before.
  destruct (Todo.completed a), (Todo.completed b), (Todo.completed c);
    intros [[? ?]|[? ?]] [[? ?]|[? ?]]; try done; try (left; done);
    right; split; (done || lia).
Qed.

(** X17.  [sortTodos] of the application, on tasks whose creation times parse:
    the result holds the tasks it was given, the tasks that are not
    completed before the completed ones, and among the tasks of either
    kind the ones created later first. *)
Theorem sortTodos_open_first_newest_first (todos : list Todo.t) :
  Forall (λ todo, Date_getTime (Todo.createdAt todo) ≠ JS.NaN) todos →
  TodoApp.sortTodos todos ≡ₚ todos
  ∧ StronglySorted shown_before (TodoApp.sortTodos todos).
Proof.
  intros Hparse. split; [apply Array_sort_perm|].
  set (cmp' := λ a b : Todo.t,
         if negb (Bool.eqb (Todo.completed a) (Todo.completed b))
         then (if Todo.completed a then 1 else -1)
         else created_ms b - created_ms a).
  unfold TodoApp.sortTodos.
  rewrite (Array_sort_ext _ cmp').
  2:{ intros a b Ha Hb. rewrite Forall_forall in Hparse.
      pose proof (Hparse a Ha) as Hta. pose proof (Hparse b Hb) as Htb.
      unfold cmp', TodoApp.compare, created_ms.
      destruct (negb (Bool.eqb (Todo.completed a) (Todo.completed b))); [done|].
      destruct (Date_getTime (Todo.createdAt a)), (Date_getTime (Todo.createdAt b));
        done. }
  apply Array_sort_ordered; [|apply shown_before_total|apply shown_before_trans].
  intros a b. unfold cmp', shown_before.
  destruct (Todo.completed a), (Todo.completed b); simpl; split;
    try lia; try (intros [[? ?]|[? ?]]; done || lia); try (intros; left; done);
    intros; right; split; (done || lia).
Qed.

End MoreSortProperties.

(** ** Loading the collection *)

Section ReloadProperties.
Context `{Platform}.

(** X18.  A collection that was saved is loaded again as it was.  When the
    store takes the text of [save()], [JSON.parse] reads the envelope back
    from it, and no task holds an empty string in a field that the
    constructor defaults, then [load()] of any collection on the same
    store returns with the tasks that were saved, in their order, calls
    its listeners with them, and neither reads the clock nor logs. *)
Theorem collection_survives_reload (st : TodoList.state) :
  let this := TodoList.self st in
  let now := clock_iso (reads (TodoList.world st)) in
  Forall revivable (TodoList.todos this) →
  storage_accepts
    (<[StorageService.key (TodoList.storageService this) := persisted this now]>
       (localStorage (TodoList.world st))) = true →
  JSON_parse (persisted this now)
  = Some (StorageService.envelope (TodoList.storageService this)
            (Todo.toJSON <$> TodoList.todos this) now) →
  ∃ st1,
    TodoList.save st = (Return (), st1)
    ∧ ∀ listeners delivered,
        TodoList.load
          (TodoList.mk_state
             (TodoList.mk (TodoList.storageService this) [] listeners)
             (TodoList.world st1) delivered)
        = Some (Return (),
                TodoList.mk_state
                  (TodoList.mk (TodoList.storageService this)
                     (TodoList.todos this) listeners)
                  (TodoList.world st1)
                  (delivered
                   ++ ((λ listener, (listener, TodoList.todos this))
                         <$> listeners))).
Proof.
  intros this now Hrevivable Haccepts Hcodec.
  destruct (save_returns st) as (st1 & Esave & _ & Hstore & _).
  exists st1. split; [done|]. intros listeners delivered.
  assert (localStorage (TodoList.world st1)
          !! StorageService.key (TodoList.storageService this)
          = Some (persisted this now)) as Hstored.
  { rewrite Hstore. unfold store_after_persist. fold this now.
    rewrite Haccepts. apply lookup_insert_eq. }
  pose proof (load_reads_back _ _ _ _ _ Hstored Hcodec) as Eload.
  unfold TodoList.load, TodoList.in_world. simpl. rewrite Eload.
  rewrite revive_all. simpl.
  unfold mbind at 1, M_bind at 1. simpl.
  by rewrite (construct_all_fields_of _ _ Hrevivable).
Qed.

(** X19.  [load()] on a store without the key, or with a text under the key
    that does not parse, returns: the collection then holds no task,
    whatever it held before, its listeners are called with the empty
    array, and the store is as it was. *)
Theorem load_of_unreadable_store (st : TodoList.state) :
  let key := StorageService.key (TodoList.storageService (TodoList.self st)) in
  localStorage (TodoList.world st) !! key = None
  ∨ (∃ text, localStorage (TodoList.world st) !! key = Some text
             ∧ JSON_parse text = None) →
  ∃ st',
    TodoList.load st = Some (Return (), st')
    ∧ TodoList.todos (TodoList.self st') = []
    ∧ TodoList.listeners (TodoList.self st') = TodoList.listeners (TodoList.self st)
    ∧ localStorage (TodoList.world st') = localStorage (TodoList.world st)
    ∧ TodoList.delivered st'
      = TodoList.delivered st
        ++ ((λ listener, (listener, [])) <$> TodoList.listeners (TodoList.self st)).
Proof.
  intros key Hstore.
  assert (∃ w', StorageService.load (TodoList.storageService (TodoList.self st))
                  (TodoList.world st) = (Return [], w')
                ∧ localStorage w' = localStorage (TodoList.world st))
    as (w' & Eload & Hls).
  { unfold StorageService.load, try_catch, getItem.
    unfold mbind, M_bind, get, mret, M_ret. simpl. fold key.
    destruct Hstore as [->|(text & -> & Hparse)]; [by eexists|].
    destruct text as [|c text]; simpl; [by eexists|].
    unfold StorageService.parse. rewrite Hparse. simpl. by eexists. }
  unfold TodoList.load, TodoList.in_world. rewrite Eload.
  eexists. split; [reflexivity|]. by simpl.
Qed.

End ReloadProperties.

(** ** More of [parseTags] *)

Lemma append_empty_r (s : string) : s +:+ "" = s.
Proof. induction s as [|c s IH]; [done|]. by rewrite append_unit, IH. Qed.

Lemma append_assoc (s t u : string) : (s +:+ t) +:+ u = s +:+ (t +:+ u).
Proof. induction s as [|c s IH]; [done|]. by rewrite !append_unit, IH. Qed.

Lemma unbroken_unit c (s : string) :
  unbroken (String c s) ↔ tag_separator c = false ∧ unbroken s.
Proof.
  unfold unbroken. simpl. split.
  - intros Hall. split; [apply Hall; left|]. intros d Hd. apply Hall. by right.
  - intros [Hc Hs] d [->|Hd]%elem_of_cons; auto.
Qed.

Lemma unbroken_empty : unbroken "".
Proof. intros c Hc. by apply elem_of_nil in Hc. Qed.

Lemma unbroken_append (s t : string) :
  unbroken s → unbroken t → unbroken (s +:+ t).
Proof.
  induction s as [|c s IH]; [done|].
  rewrite append_unit, !unbroken_unit. intros [Hc Hs] Ht. auto.
Qed.

Lemma separator_of_space c : JS.is_space c = true → tag_separator c = true.
Proof. unfold tag_separator. intros ->. apply orb_true_r. Qed.

(** The pieces of the split hold no separator. *)
Lemma split_runs_unbroken (s cur : string) (in_run : bool) :
  unbroken cur → Forall unbroken (JS.split_runs tag_separator s cur in_run).
Proof.
  revert cur in_run. induction s as [|c s IH]; intros cur in_run Hcur; simpl.
  - by constructor.
  - destruct (tag_separator c) eqn:Hc.
    + destruct in_run; [by apply IH|].
      constructor; [done|]. apply IH, unbroken_empty.
    + apply IH, unbroken_append; [done|].
      apply unbroken_unit. split; [done|apply unbroken_empty].
Qed.

Lemma trimEnd_unbroken (s : string) : unbroken s → JS.trimEnd s = s.
Proof.
  induction s as [|c s IH]; [done|].
  rewrite unbroken_unit. intros [Hc Hs]. simpl. rewrite (IH Hs).
  destruct s; [|done].
  destruct (JS.is_space c) eqn:Hspace; [|done].
  apply separator_of_space in Hspace. congruence.
Qed.

(** [trim()] leaves a string without white space as it is. *)
Lemma trim_unbroken (s : string) : unbroken s → JS.trim s = s.
Proof.
  intros Hs. unfold JS.trim.
  assert (JS.trimStart s = s) as ->; [|by apply trimEnd_unbroken].
  destruct s as [|c s]; [done|]. simpl.
  apply unbroken_unit in Hs as [Hc _].
  destruct (JS.is_space c) eqn:Hspace; [|done].
  apply separator_of_space in Hspace. congruence.
Qed.

(** The split reads a piece without a separator as one piece. *)
Lemma split_runs_piece (t rest cur : string) (in_run : bool) :
  unbroken t → t ≠ "" →
  JS.split_runs tag_separator (t +:+ rest) cur in_run
  = JS.split_runs tag_separator rest (cur +:+ t) false.
Proof.
  revert cur in_run. induction t as [|c t IH]; intros cur in_run Ht Hne; [done|].
  apply unbroken_unit in Ht as [Hc Ht].
  rewrite append_unit. simpl. rewrite Hc.
  destruct t as [|d t].
  - by rewrite append_empty.
  - rewrite IH by done. f_equal. by rewrite append_assoc.
Qed.

Lemma hash_marked_not_empty (tag : string) : hash_marked tag → tag ≠ "".
Proof. by intros Htag ->. Qed.

(** The split of clean tags joined by [", "] gives the tags. *)
Lemma split_runs_join (l : list string) (in_run : bool) :
  Forall clean_tag l → l ≠ [] →
  JS.split_runs tag_separator (JS.join ", " l) "" in_run = l.
Proof.
  intros Hl. revert in_run.
  induction Hl as [|t l [Hmark Ht] Hl IH]; intros in_run Hne; [done|].
  pose proof (hash_marked_not_empty t Hmark) as Htne.
  unfold JS.join in *. destruct l as [|t' l].
  - simpl. rewrite <- (append_empty_r t) at 1.
    by rewrite split_runs_piece.
  - change (String.concat ", " (t :: t' :: l))
      with (t +:+ ", " +:+ String.concat ", " (t' :: l)).
    rewrite split_runs_piece by done.
    rewrite append_empty, !append_unit, append_empty. simpl.
    by rewrite IH.
Qed.

(** X20.  [parseTags] returns tags in one piece: each starts with [#] and holds
    neither a comma nor white space.  It reads such tags joined by [", "],
    which is how the form shows the tags of a task, as the very tags: the
    tags it returned once it returns again. *)
Theorem parseTags_reads_its_tags_back :
  (∀ tagString, Forall clean_tag (parseTags tagString))
  ∧ (∀ tags, Forall clean_tag tags → parseTags (JS.join ", " tags) = tags)
  ∧ (∀ tagString,
       parseTags (JS.join ", " (parseTags tagString)) = parseTags tagString).
Proof.
  assert (∀ tagString, Forall clean_tag (parseTags tagString)) as Hclean.
  { intros tagString. unfold parseTags.
    destruct (negb (JS.truthy tagString)); [constructor|].
    pose proof (split_runs_unbroken tagString "" false unbroken_empty) as Hpieces.
    apply Forall_fmap, Forall_forall. intros tag Htag.
    apply list_elem_of_In, filter_In in Htag as [Htag _].
    apply list_elem_of_In, list_elem_of_fmap in Htag as (piece & -> & Hpiece).
    rewrite Forall_forall in Hpieces. specialize (Hpieces piece Hpiece).
    rewrite (trim_unbroken piece Hpieces). simpl. unfold clean_tag, hash_marked.
    destruct (JS.startsWith piece "#") eqn:Hmark; [done|].
    split; [apply startsWith_hash_prefixed|].
    rewrite append_unit, append_empty. by apply unbroken_unit. }
  assert (∀ tags, Forall clean_tag tags → parseTags (JS.join ", " tags) = tags)
    as Hback.
  { intros tags Htags. unfold parseTags.
    destruct tags as [|t tags]; [done|].
    assert (JS.truthy (JS.join ", " (t :: tags)) = true) as ->.
    { apply Forall_cons in Htags as [[Hmark _] _].
      destruct t as [|c t]; [done|].
      unfold JS.join. by destruct tags. }
    simpl negb. cbv iota. rewrite split_runs_join by done.
    assert (JS.trim <$> t :: tags = t :: tags) as ->.
    { clear -Htags. induction Htags as [|x l [_ Hx] _ IH]; [done|].
      by rewrite fmap_cons, IH, (trim_unbroken x Hx). }
    assert (List.filter (λ tag, 0 <? JS.length tag) (t :: tags) = t :: tags) as ->.
    { clear -Htags. induction Htags as [|x l [Hx _] _ IH]; [done|].
      simpl. rewrite IH. by destruct x. }
    clear -Htags. induction Htags as [|x l [Hx _] _ IH]; [done|].
    rewrite fmap_cons, IH. unfold hash_marked in Hx. by rewrite Hx. }
  split; [done|]. split; [done|].
  intros tagString. by apply Hback.
Qed.

(** ** The further properties at work on the sample platform *)

(** [save_then_load] at one serialized task. *)
Lemma save_then_load_witness :
  StorageService.load (H := Sample.platform) Sample.service
    (state_after (StorageService.save (H := Sample.platform) Sample.service
                    [Todo.toJSON Sample.second_task]) Sample.empty_world)
  = (Return [Todo.toJSON Sample.second_task],
     state_after (StorageService.save (H := Sample.platform) Sample.service
                    [Todo.toJSON Sample.second_task]) Sample.empty_world).
Proof.
  apply (save_then_load (H := Sample.platform) Sample.service
           [Todo.toJSON Sample.second_task] Sample.empty_world);
    vm_compute; reflexivity.
Defined.

(** [import_then_export_and_load] at the text of an older envelope. *)
Lemma import_then_export_and_load_witness :
  StorageService.export Sample.service
    (state_after (StorageService.import (H := Sample.platform) Sample.service
                    (Sample.stringify Sample.old_envelope)) Sample.empty_world)
  = (Return (Some (Sample.stringify Sample.old_envelope)),
     state_after (StorageService.import (H := Sample.platform) Sample.service
                    (Sample.stringify Sample.old_envelope)) Sample.empty_world).
Proof.
  apply (import_then_export_and_load (H := Sample.platform) Sample.service
           (Sample.stringify Sample.old_envelope) Sample.empty_world).
  vm_compute. reflexivity.
Defined.

(** [missing_id_changes_nothing] at two tasks and an id neither has. *)
Lemma missing_id_changes_nothing_witness :
  TodoList.delete (H := Sample.platform) "9" (Sample.collection Sample.two_tasks)
  = (Return false, Sample.collection Sample.two_tasks).
Proof.
  apply (missing_id_changes_nothing (H := Sample.platform) "9" Todo.no_fields
           (Sample.collection Sample.two_tasks)).
  vm_compute. reflexivity.
Defined.

(** [update_keeps_the_identity] at the second of two tasks. *)
Lemma update_keeps_the_identity_witness :
  ∃ st' todo',
    Todo.id todo' = "2"
    ∧ TodoList.findById (TodoList.self st') "2" = Some (1%nat, todo')
    ∧ (TodoList.update (H := Sample.platform) "2" Sample.parsed_tags
         (Sample.collection Sample.two_tasks)).2 = st'.
Proof.
  destruct (update_keeps_the_identity (H := Sample.platform) "2" Sample.parsed_tags
              (Sample.collection Sample.two_tasks) 1%nat Sample.second_task)
    as (st' & E & Hid & _ & _ & Hfound & _).
  - vm_compute. reflexivity.
  - exists st'. eexists. split; [exact Hid|]. split; [exact Hfound|].
    by rewrite E.
Defined.

(** [toggle_flips_the_first_match] at the second of two tasks. *)
Lemma toggle_flips_the_first_match_witness :
  ∃ todo' st',
    TodoList.toggle (H := Sample.platform) "2" (Sample.collection Sample.two_tasks)
    = (Return (Some todo'), st')
    ∧ Todo.completed todo' = true.
Proof.
  destruct (toggle_flips_the_first_match (H := Sample.platform) "2"
              (Sample.collection Sample.two_tasks) 1%nat Sample.second_task)
    as (todo' & st' & E & Hc & _).
  - vm_compute. reflexivity.
  - by exists todo', st'.
Defined.

(** [add_then_findById] at a new task behind two. *)
Lemma add_then_findById_witness :
  TodoList.findById
    (TodoList.self
       (state_after (TodoList.add (H := Sample.platform) Sample.parsed_tags)
          (Sample.collection Sample.two_tasks)))
    "1714557600000-sample0"
  = Some (2%nat, Sample.added_task).
Proof.
  apply (add_then_findById (H := Sample.platform) Sample.parsed_tags
           (Sample.collection Sample.two_tasks)
           (state_after (TodoList.add (H := Sample.platform) Sample.parsed_tags)
              (Sample.collection Sample.two_tasks))
           Sample.added_task).
  vm_compute. reflexivity.
Defined.

(** [sortTodos_open_first_newest_first] at a completed task and an open
    one. *)
Lemma sortTodos_open_first_newest_first_witness :
  StronglySorted (shown_before (H := Sample.platform))
    (TodoApp.sortTodos (H := Sample.platform) Sample.two_tasks).
Proof.
  apply (sortTodos_open_first_newest_first (H := Sample.platform) Sample.two_tasks).
  repeat constructor; vm_compute; discriminate.
Defined.

(** [collection_survives_reload] at two tasks. *)
Lemma collection_survives_reload_witness :
  ∃ st1,
    TodoList.save (H := Sample.platform) (Sample.collection Sample.two_tasks)
    = (Return (), st1)
    ∧ TodoList.load (H := Sample.platform)
        (TodoList.mk_state (TodoList.mk Sample.service [] [3%nat])
           (TodoList.world st1) [])
      = Some (Return (),
              TodoList.mk_state (TodoList.mk Sample.service Sample.two_tasks [3%nat])
                (TodoList.world st1) [(3%nat, Sample.two_tasks)]).
Proof.
  destruct (collection_survives_reload (H := Sample.platform)
              (Sample.collection Sample.two_tasks)) as (st1 & E & Hload).
  - repeat constructor; discriminate.
  - reflexivity.
  - vm_compute. reflexivity.
  - exists st1. split; [exact E|]. apply (Hload [3%nat] []).
Defined.

(** [load_of_unreadable_store] at a store that holds text that is not
    JSON. *)
Lemma load_of_unreadable_store_witness :
  ∃ st',
    TodoList.load (H := Sample.platform)
      (TodoList.mk_state (Sample.holding Sample.two_tasks)
         (Sample.world_storing "{not json") [])
    = Some (Return (), st')
    ∧ TodoList.todos (TodoList.self st') = [].
Proof.
  destruct (load_of_unreadable_store (H := Sample.platform)
              (TodoList.mk_state (Sample.holding Sample.two_tasks)
                 (Sample.world_storing "{not json") []))
    as (st' & E & Hempty & _).
  - right. exists "{not json". split; vm_compute; reflexivity.
  - by exists st'.
Defined.

(** [sort_keeps_the_tasks] at a field name no task has. *)
Lemma sort_keeps_the_tasks_witness :
  TodoList.sort (H := Sample.platform) (Sample.holding Sample.two_tasks)
    (Some "owner") None
  = Sample.two_tasks.
Proof.
  apply (sort_keeps_the_tasks (H := Sample.platform)
           (Sample.holding Sample.two_tasks) (Some "owner") None).
  simpl. unfold field_names. rewrite !not_elem_of_cons.
  repeat split; try discriminate. apply not_elem_of_nil.
Defined.

(** [parseTags_reads_its_tags_back] at two tags. *)
Lemma parseTags_reads_its_tags_back_witness :
  parseTags (JS.join ", " ["#work"; "#home"]) = ["#work"; "#home"].
Proof.
  apply parseTags_reads_its_tags_back.
  repeat constructor; try reflexivity;
    intros c Hc; simpl in Hc;
    repeat (apply elem_of_cons in Hc as [->|Hc]; [reflexivity|]);
    by apply elem_of_nil in Hc.
Defined.

(** ** The date queries of a task *)

Section DateQueryProperties.
Context `{Platform} `{Calendar}.

(** X21.  [isOverdue()] and [isDueToday()] return, and answer [true] only
    for a task with a due date that is set and parses; [isOverdue()]
    moreover only for a task that is not completed, while the answer of
    [isDueToday()] is the same whatever [completed] is. *)
Theorem date_queries_need_a_date (todo : Todo.t) (w : World) :
  ∃ late today w1 w2,
    Todo.isOverdue todo w = (Return late, w1)
    ∧ Todo.isDueToday todo w = (Return today, w2)
    ∧ (late = true →
       Todo.completed todo = false
       ∧ ∃ due ms, Todo.has_dueDate todo = Some due ∧ Date_getTime due = JS.Num ms)
    ∧ (today = true →
       ∃ due ms, Todo.has_dueDate todo = Some due ∧ Date_getTime due = JS.Num ms)
    ∧ ∀ flag,
        Todo.isDueToday (Todo.assign todo (completed_as flag)) w = (Return today, w2).
Proof.
  unfold Todo.isOverdue, Todo.isDueToday, Todo.has_dueDate.
  destruct todo as [id title description completed priority due categories tags
                      created updated done_at]. simpl.
  destruct due as [due|]; [|by exists false, false, w, w].
  destruct (JS.truthy due); [|by exists false, false, w, w].
  unfold Date_now, read_platform, mbind, M_bind, mret, M_ret. simpl.
  destruct (Date_getTime due) as [ms|] eqn:Hdue.
  - destruct completed; do 4 eexists;
      (split; [reflexivity|]); (split; [reflexivity|]);
      (split; [|split; [|done]]); try done;
      intros _; try split; try done; by exists due, ms.
  - destruct completed; do 4 eexists;
      (split; [reflexivity|]); (split; [reflexivity|]);
      (split; [|split; [|done]]); try done;
      unfold Todo.same_local_day; simpl; intros Hyes; exfalso; revert Hyes;
      by destruct (Date_getTime (clock_iso (reads w))).
Qed.

End DateQueryProperties.
